(** * TAMA-MCP task graph engine: a shallow embedding of
      [src/task_manager/core.py] and its verification.

    The Python functions are embedded as computations of a small state and
    exception monad over the task collection and the process-wide execution
    history.  Objects are references: an entity handed out by a lookup is a
    position in the collection together with the record found there, and a
    field assignment writes through the position.  Calls to [logger] and the
    wall-clock time stamps of the history records are not modelled. *)

From Stdlib Require Import ZArith Ascii String List Lia.
From stdpp Require Import base option list strings gmap.

Local Open Scope Z_scope.
Local Open Scope string_scope.
Local Open Scope list_scope.

(** ** Data model *)

(** Modelled from the spec: the type declarations of [data_models.py]
    ([Status], [Priority], [Dependency], [Subtask], [Task]), a file of the
    repository that the embedded functions import.  [Dependency] is
    [Union[int, str]]. *)
Inductive Dependency : Type :=
  | DepInt (n : Z)
  | DepStr (s : string).

Record Subtask : Type := mkSubtask {
  sub_id : Z;
  sub_title : string;
  sub_description : option string;
  sub_details : option string;
  sub_status : string;
  sub_priority : option string;
  sub_dependencies : list Dependency;
  sub_parent_task_id : Z
}.

(** A [Task] has no [parent_task_id] field: only a [Subtask] carries the
    back-reference to its owner. *)
Record Task : Type := mkTask {
  task_id : Z;
  task_title : string;
  task_description : option string;
  task_details : option string;
  task_test_strategy : option string;
  task_status : string;
  task_priority : string;
  task_dependencies : list Dependency;
  task_subtasks : list Subtask
}.

(** [Status.__args__]: the six accepted status strings. *)
Definition Status_args : list string :=
  ["pending"; "in-progress"; "done"; "blocked"; "deferred"; "review"].

(** [Priority.__args__] ([config/settings.py]): the accepted priorities. *)
Definition Priority_args : list string := ["low"; "medium"; "high"].

Definition DEFAULT_PRIORITY : string := "medium".

Global Instance Dependency_eq_dec : EqDecision Dependency.
Proof. solve_decision. Defined.
Global Instance Subtask_eq_dec : EqDecision Subtask.
Proof. solve_decision. Defined.
Global Instance Task_eq_dec : EqDecision Task.
Proof. solve_decision. Defined.

Definition set_sub_status (s : string) (st : Subtask) : Subtask :=
  {| sub_id := sub_id st; sub_title := sub_title st;
     sub_description := sub_description st; sub_details := sub_details st;
     sub_status := s; sub_priority := sub_priority st;
     sub_dependencies := sub_dependencies st;
     sub_parent_task_id := sub_parent_task_id st |}.

Definition set_task_status_field (s : string) (t : Task) : Task :=
  {| task_id := task_id t; task_title := task_title t;
     task_description := task_description t; task_details := task_details t;
     task_test_strategy := task_test_strategy t;
     task_status := s; task_priority := task_priority t;
     task_dependencies := task_dependencies t;
     task_subtasks := task_subtasks t |}.

Definition set_task_subtasks (sts : list Subtask) (t : Task) : Task :=
  {| task_id := task_id t; task_title := task_title t;
     task_description := task_description t; task_details := task_details t;
     task_test_strategy := task_test_strategy t;
     task_status := task_status t; task_priority := task_priority t;
     task_dependencies := task_dependencies t;
     task_subtasks := sts |}.

(** ** Python strings and integers

    A Python [str] is modelled as a [string] whose characters are the code
    points below 256. *)
Module PyStr.

(** [c in s] for a one-character [c]. *)
Fixpoint contains (c : ascii) (s : string) : bool :=
  match s with
  | EmptyString => false
  | String a s' => if Ascii.eqb a c then true else contains c s'
  end.

(** [s.split(c)]: always at least one part. *)
Fixpoint split (c : ascii) (s : string) : list string :=
  match s with
  | EmptyString => [EmptyString]
  | String a s' =>
      if Ascii.eqb a c then EmptyString :: split c s'
      else match split c s' with
           | p :: ps => String a p :: ps
           | [] => [String a EmptyString]
           end
  end.

(** The characters [str.strip] removes, among the code points below 256. *)
Definition is_space (c : ascii) : bool :=
  let n := nat_of_ascii c in
  (((9 <=? n) && (n <=? 13)) || ((28 <=? n) && (n <=? 32))
   || (n =? 133) || (n =? 160))%nat.

Fixpoint lstrip (s : string) : string :=
  match s with
  | EmptyString => EmptyString
  | String a s' => if is_space a then lstrip s' else s
  end.

Fixpoint rstrip (s : string) : string :=
  match s with
  | EmptyString => EmptyString
  | String a s' =>
      match rstrip s' with
      | EmptyString => if is_space a then EmptyString else String a EmptyString
      | r => String a r
      end
  end.

Definition strip (s : string) : string := rstrip (lstrip s).

Definition digit_of (c : ascii) : option Z :=
  let n := nat_of_ascii c in
  if ((48 <=? n) && (n <=? 57))%nat then Some (Z.of_nat n - 48) else None.

(** Decimal digits with single underscores allowed between digits.
    [prev] tells whether the previous character was a digit. *)
Fixpoint digits (acc : Z) (prev : bool) (s : string) : option Z :=
  match s with
  | EmptyString => if prev then Some acc else None
  | String a s' =>
      match digit_of a with
      | Some d => digits (10 * acc + d) true s'
      | None =>
          if Ascii.eqb a "_" && prev then digits acc false s' else None
      end
  end.

(** The builtin [int(s)] in base 10: [None] stands for [ValueError]. *)
Definition int (s : string) : option Z :=
  match strip s with
  | EmptyString => None
  | String a s' =>
      if Ascii.eqb a "-" then Z.opp <$> digits 0 false s'
      else if Ascii.eqb a "+" then digits 0 false s'
      else digits 0 false (String a s')
  end.

(** The builtin [str(n)] of an integer. *)
Definition of_Z (n : Z) : string := pretty.pretty n.

End PyStr.

(** ** The world and the monad of the embedding *)

Inductive Exn : Type :=
  | ValueError
  | AttributeError
  | ParentTaskNotFoundError
  | RecursionError.

Inductive Outcome (A : Type) : Type :=
  | Return (a : A)
  | Raise (e : Exn).
Arguments Return {A} a.
Arguments Raise {A} e.

(** One entry of [task_execution_history] (the three time fields left out). *)
Record ExecRecord : Type := mkExecRecord {
  rec_task_id : string;
  rec_old_status : string;
  rec_new_status : string;
  rec_success : bool
}.

(** The mutable state the functions of [core.py] act on: the list object
    passed as [tasks] and the module-level [task_execution_history]. *)
Record World : Type := mkWorld {
  tasks : list Task;
  task_execution_history : list ExecRecord
}.

(** A computation returns or raises; the world it leaves behind is kept in
    both cases, since Python's assignments are not undone by an exception. *)
Definition M (A : Type) : Type := World -> Outcome A * World.

Global Instance M_ret : MRet M := fun A (a : A) w => (Return a, w).

Global Instance M_bind : MBind M := fun A B (k : A -> M B) (m : M A) w =>
  match m w with
  | (Return a, w') => k a w'
  | (Raise e, w') => (Raise e, w')
  end.

Definition ret {A} (a : A) : M A := mret a.

Definition raise {A} (e : Exn) : M A := fun w => (Raise e, w).

(** [try: body except Exception: handler]. *)
Definition try_except {A} (body : M A) (handler : Exn -> M A) : M A :=
  fun w =>
    match body w with
    | (Return a, w') => (Return a, w')
    | (Raise e, w') => handler e w'
    end.

Definition get_tasks : M (list Task) := fun w => (Return (tasks w), w).

Definition put_tasks (ts : list Task) : M unit :=
  fun w => (Return tt, mkWorld ts (task_execution_history w)).

Definition history_append (r : ExecRecord) : M unit :=
  fun w => (Return tt, mkWorld (tasks w) (task_execution_history w ++ [r])).

(** [int(s)], raising [ValueError]. *)
Definition py_int (s : string) : M Z :=
  match PyStr.int s with
  | Some n => ret n
  | None => raise ValueError
  end.

(** An entity found in the collection: where it lives and what is there. *)
Inductive Item : Type :=
  | ItemTask (i : nat) (t : Task)
  | ItemSubtask (i j : nat) (st : Subtask).

Definition item_status (it : Item) : string :=
  match it with
  | ItemTask _ t => task_status t
  | ItemSubtask _ _ st => sub_status st
  end.

(** [next((t for t in tasks if t.id == n), None)]. *)
Definition next_task (n : Z) : M (option (nat * Task)) :=
  ts ← get_tasks;
  ret (list_find (fun t => task_id t = n) ts).

Definition next_subtask (n : Z) (sts : list Subtask) : option (nat * Subtask) :=
  list_find (fun st => sub_id st = n) sts.

Definition is_nil {A} (l : list A) : bool :=
  match l with [] => true | _ => false end.

(** ** Read operations *)

Definition get_task_by_id (task_id_str : string) : M (option Item) :=
  if String.eqb task_id_str "" then ret None
  else
    try_except
      (if PyStr.contains "." task_id_str then
         match PyStr.split "." task_id_str with
         | [p0; p1] =>
             if String.eqb p0 "" || String.eqb p1 "" then ret None
             else
               parent_id ← py_int p0;
               sub_id' ← py_int p1;
               parent_task ← next_task parent_id;
               match parent_task with
               | None => ret None
               | Some (i, t) =>
                   if is_nil (task_subtasks t) then ret None
                   else
                     match next_subtask sub_id' (task_subtasks t) with
                     | Some (j, st) => ret (Some (ItemSubtask i j st))
                     | None => ret None
                     end
               end
         | _ => ret None
         end
       else
         task_id' ← py_int task_id_str;
         task ← next_task task_id';
         ret (match task with
              | Some (i, t) => Some (ItemTask i t)
              | None => None
              end))
      (fun _ => ret None).

(** The set built by the first loop of [find_next_task]. *)
Definition completed_ids_of (ts : list Task) : gset Z :=
  foldl (fun acc t => if String.eqb (task_status t) "done"
                      then acc ∪ {[ task_id t ]} else acc) ∅ ts.

(** The dependency loop: [true] when it ends with [deps_met] still set. *)
Fixpoint deps_met (completed_ids : gset Z) (deps : list Dependency) : M bool :=
  match deps with
  | [] => ret true
  | DepInt n :: rest =>
      if bool_decide (n ∈ completed_ids) then deps_met completed_ids rest
      else ret false
  | DepStr s :: rest =>
      if PyStr.contains "." s then
        dep_subtask ← get_task_by_id s;
        match dep_subtask with
        | Some it =>
            if String.eqb (item_status it) "done"
            then deps_met completed_ids rest else ret false
        | None => ret false
        end
      else ret false
  end.

(** The second loop: the tasks appended to [eligible], in order, each with
    its position in [tasks]. *)
Fixpoint collect_eligible (completed_ids : gset Z) (i : nat) (ts : list Task)
  : M (list (nat * Task)) :=
  match ts with
  | [] => ret []
  | task :: rest =>
      if String.eqb (task_status task) "done"
      then collect_eligible completed_ids (S i) rest
      else
        met ← deps_met completed_ids (task_dependencies task);
        more ← collect_eligible completed_ids (S i) rest;
        ret (if met && negb (String.eqb (task_status task) "blocked")
             then (i, task) :: more else more)
  end.

(** [priority_map.get(p, 2)]. *)
Definition priority_rank (p : string) : Z :=
  if String.eqb p "high" then 3
  else if String.eqb p "medium" then 2
  else if String.eqb p "low" then 1
  else 2.

(** The sort key [(-priority_map.get(t.priority, 2), t.id)] and the order of
    Python tuples on it. *)
Definition sort_key (t : Task) : Z * Z :=
  (- priority_rank (task_priority t), task_id t).

Definition key_le (a b : Z * Z) : bool :=
  ((a.1 <? b.1) || ((a.1 =? b.1) && (a.2 <=? b.2)))%Z.

(** [list.sort(key=...)] is stable: an insertion sort that puts an element
    in front of the first one that is not smaller gives the same list. *)
Fixpoint insert_sorted (x : nat * Task) (l : list (nat * Task))
  : list (nat * Task) :=
  match l with
  | [] => [x]
  | y :: l' =>
      if key_le (sort_key x.2) (sort_key y.2) then x :: y :: l'
      else y :: insert_sorted x l'
  end.

Fixpoint sort_eligible (l : list (nat * Task)) : list (nat * Task) :=
  match l with
  | [] => []
  | x :: l' => insert_sorted x (sort_eligible l')
  end.

Definition find_next_task : M (option (nat * Task)) :=
  ts ← get_tasks;
  let completed_ids := completed_ids_of ts in
  eligible ← collect_eligible completed_ids 0 ts;
  if is_nil eligible
     && forallb (fun t => String.eqb (task_status t) "blocked") ts
  then ret None
  else if is_nil eligible then ret None
  else ret (head (sort_eligible eligible)).

(** ** Write operations *)

Definition modify_tasks (f : list Task -> list Task) : M unit :=
  ts ← get_tasks;
  put_tasks (f ts).

(** [item.status = s]: the write goes through the reference, and the name
    [item] now shows the updated object. *)
Definition assign_status (it : Item) (s : string) : M Item :=
  match it with
  | ItemTask i t =>
      modify_tasks (alter (set_task_status_field s) i);;
      ret (ItemTask i (set_task_status_field s t))
  | ItemSubtask i j st =>
      modify_tasks
        (alter (fun t => set_task_subtasks
                           (alter (set_sub_status s) j (task_subtasks t)) t) i);;
      ret (ItemSubtask i j (set_sub_status s st))
  end.

(** The loop of propagation rule A over [item.subtasks]. *)
Definition force_done (st : Subtask) : Subtask :=
  if String.eqb (sub_status st) "done" then st else set_sub_status "done" st.

Definition propagate_to_subtasks (i : nat) : M unit :=
  modify_tasks
    (alter (fun t => set_task_subtasks (force_done <$> task_subtasks t) t) i).

(** Reading [parent_task_id] on a [Task] object: the class declares no such
    attribute, so the read raises. *)
Definition Task_parent_task_id (t : Task) : M (option Z) :=
  raise AttributeError.

(** Truth value of an optional integer. *)
Definition truthy (v : option Z) : bool :=
  match v with
  | Some n => negb (n =? 0)%Z
  | None => false
  end.

(** [set_task_status], with the depth of Python's call stack left as
    [depth]: a call at depth [0] raises [RecursionError]. *)
Fixpoint set_task_status_rec (depth : nat) (task_id_str new_status : string)
  : M bool :=
  match depth with
  | O => raise RecursionError
  | S depth' =>
      if negb (bool_decide (new_status ∈ Status_args)) then ret false
      else
        found ← get_task_by_id task_id_str;
        match found with
        | None => ret false
        | Some item =>
            let old_status := item_status item in
            if String.eqb old_status new_status then ret true
            else
              item ← assign_status item new_status;
              history_append
                (mkExecRecord task_id_str old_status new_status true);;
              match item with
              | ItemTask i t =>
                  if String.eqb (task_status t) "done"
                     && negb (is_nil (task_subtasks t))
                  then propagate_to_subtasks i;; ret true
                  else ret true
              | ItemSubtask _ _ st =>
                  if String.eqb (sub_status st) "done" then
                    parent_task ← next_task (sub_parent_task_id st);
                    match parent_task with
                    | Some (pi, pt) =>
                        if negb (is_nil (task_subtasks pt)) then
                          let all_subs_done :=
                            forallb (fun s => String.eqb (sub_status s) "done")
                                    (task_subtasks pt) in
                          if all_subs_done
                             && negb (String.eqb (task_status pt) "done")
                          then
                            modify_tasks
                              (alter (set_task_status_field "done") pi);;
                            grand ← Task_parent_task_id
                                      (set_task_status_field "done" pt);
                            if truthy grand then
                              set_task_status_rec depth'
                                (PyStr.of_Z (default 0 grand)) "done";;
                              ret true
                            else ret true
                          else ret true
                        else ret true
                    | None => ret true
                    end
                  else ret true
              end
        end
  end.

Definition recursion_limit : nat := 1000.

Definition set_task_status (task_id_str new_status : string) : M bool :=
  set_task_status_rec recursion_limit task_id_str new_status.

(** [max(x.id for x in xs)] of a non-empty sequence. *)
Definition max_of (first : Z) (others : list Z) : Z := foldl Z.max first others.

Definition next_task_id (ts : list Task) : Z :=
  match ts with
  | [] => 1
  | t :: rest => max_of (task_id t) (task_id <$> rest) + 1
  end.

Definition next_sub_id (sts : list Subtask) : Z :=
  match sts with
  | [] => 1
  | st :: rest => max_of (sub_id st) (sub_id <$> rest) + 1
  end.

(** [str(dep_id)]. *)
Definition dep_str (d : Dependency) : string :=
  match d with
  | DepInt n => PyStr.of_Z n
  | DepStr s => s
  end.

(** The loop that keeps the dependencies [get_task_by_id] can find. *)
Fixpoint valid_dependencies (deps : list Dependency) : M (list Dependency) :=
  match deps with
  | [] => ret []
  | dep_id :: rest =>
      found ← get_task_by_id (dep_str dep_id);
      more ← valid_dependencies rest;
      ret (if found is Some _ then dep_id :: more else more)
  end.

(** The arguments are taken to pass the validators of the [Task] and
    [Subtask] constructors; the fields not given get the defaults. *)
Definition add_new_task (title : string) (description : option string)
    (priority : string) (dependencies : list Dependency) : M (nat * Task) :=
  ts ← get_tasks;
  let new_id := next_task_id ts in
  valid_deps ← valid_dependencies dependencies;
  let new_task :=
    mkTask new_id title description None None "pending" priority valid_deps [] in
  modify_tasks (fun ts => ts ++ [new_task]);;
  ret (length ts, new_task).

Definition add_subtask (parent_task_id : Z) (title : string)
    (description : option string) (priority : string)
    (dependencies : list Dependency) : M Item :=
  parent_task ← next_task parent_task_id;
  match parent_task with
  | None => raise ParentTaskNotFoundError
  | Some (i, pt) =>
      let new_id := next_sub_id (task_subtasks pt) in
      valid_deps ← valid_dependencies dependencies;
      let new_subtask :=
        mkSubtask new_id title description None "pending" (Some priority)
                  valid_deps parent_task_id in
      modify_tasks
        (alter (fun t => set_task_subtasks (task_subtasks t ++ [new_subtask]) t) i);;
      ret (ItemSubtask i (length (task_subtasks pt)) new_subtask)
  end.

(** ** The collection of the unit tests *)

Definition sample_tasks_list : list Task :=
  [ mkTask 1 "Task 1" None None None "done" "high" [] [];
    mkTask 2 "Task 2" None None None "pending" "medium" [DepInt 1] [];
    mkTask 3 "Task 3" None None None "pending" "high" [DepInt 1]
      [ mkSubtask 1 "Sub 3.1" None None "pending" (Some "medium") [] 3;
        mkSubtask 2 "Sub 3.2" None None "pending" (Some "medium") [DepInt 1] 3 ];
    mkTask 4 "Task 4" None None None "pending" "low" [DepInt 2; DepStr "3.1"] [] ].

Definition sample_world : World := mkWorld sample_tasks_list [].

(** A computation that leaves the world as it found it. *)
Definition read_only {A} (m : M A) : Prop := forall w, (m w).2 = w.

(** A computation whose result depends on the collection alone. *)
Definition tasks_only {A} (m : M A) : Prop :=
  forall w w', tasks w = tasks w' -> (m w).1 = (m w').1.

(** A computation that returns, whatever the world. *)
Definition returns {A} (m : M A) : Prop :=
  forall w, exists a, (m w).1 = Return a.

(** What [get_task_by_id] returns on a collection. *)
Definition lookup_result (ts : list Task) (s : string) : option Item :=
  match (get_task_by_id s (mkWorld ts [])).1 with
  | Return r => r
  | Raise _ => None
  end.

Fixpoint count_char (c : ascii) (s : string) : nat :=
  match s with
  | EmptyString => O
  | String a s' => if Ascii.eqb a c then S (count_char c s') else count_char c s'
  end.


(** ** Notions used by the statements *)

(** The siblings of the [j]-th subtask of [p] once that subtask is done. *)
Definition siblings_after (j : nat) (p : Task) : list Subtask :=
  alter (set_sub_status "done") j (task_subtasks p).

Definition all_done (sts : list Subtask) : bool :=
  forallb (fun s => String.eqb (sub_status s) "done") sts.

(** The subtasks that are done. *)
Definition sub_done (st : Subtask) : Prop := sub_status st = "done".

(** Task ids are pairwise distinct, and so are the subtask ids within each
    task. *)
Definition ids_unique (ts : list Task) : Prop :=
  NoDup (task_id <$> ts) /\
  Forall (fun t => NoDup (sub_id <$> task_subtasks t)) ts.

(** [n] is [1] for no ids, and else one more than the largest of [ids]. *)
Definition max_plus_one (ids : list Z) (n : Z) : Prop :=
  match ids with
  | [] => n = 1
  | _ => (n - 1) ∈ ids /\ forall x, x ∈ ids -> x < n
  end.

(** The collection of the unit tests with task 3 in progress. *)
Definition in_progress_world : World :=
  mkWorld (alter (set_task_status_field "in-progress") 2%nat sample_tasks_list) [].

(** Every character of a string passes a test. *)
Fixpoint string_forall (P : ascii -> bool) (s : string) : bool :=
  match s with
  | EmptyString => true
  | String a s' => P a && string_forall P s'
  end.

Definition is_digit (c : ascii) : bool :=
  match PyStr.digit_of c with Some _ => true | None => false end.

(** The collection of [test_dependency_on_non_existent_task]: one task,
    depending on a task 99 that does not exist. *)
Definition dangling_task : Task :=
  mkTask 1 "T1" None None None "pending" "medium" [DepInt 99] [].

Definition dangling_tasks : list Task := [dangling_task].

(** ** Eligible tasks *)

(** A declared dependency is satisfied: an integer one when its target is
    in the completed-id set, a string one in the subtask shape when the
    lookup yields an entity that is done. *)
Definition dep_satisfied (ts : list Task) (d : Dependency) : bool :=
  match d with
  | DepInt n => bool_decide (n ∈ completed_ids_of ts)
  | DepStr s =>
      PyStr.contains "." s &&
      match lookup_result ts s with
      | Some it => String.eqb (item_status it) "done"
      | None => false
      end
  end.

(** A task is eligible: neither done nor blocked, with every declared
    dependency satisfied. *)
Definition eligible (ts : list Task) (t : Task) : bool :=
  negb (String.eqb (task_status t) "done")
  && (forallb (dep_satisfied ts) (task_dependencies t)
      && negb (String.eqb (task_status t) "blocked")).

(** The tasks with their positions, counted from [i]. *)
Fixpoint enumerate_from (i : nat) (ts : list Task) : list (nat * Task) :=
  match ts with
  | [] => []
  | t :: rest => (i, t) :: enumerate_from (S i) rest
  end.

(** [t] goes before [t']: a higher priority rank, or the same rank and an
    id that is not larger. *)
Definition goes_before (t t' : Task) : Prop :=
  priority_rank (task_priority t') < priority_rank (task_priority t) \/
  (priority_rank (task_priority t') = priority_rank (task_priority t) /\
   task_id t <= task_id t').

(** Tasks A (done), B (medium, depends on A) and C (high, depends on A). *)
Definition task_A (a : Z) : Task :=
  mkTask a "A" None None None "done" "medium" [] [].
Definition task_B (a b : Z) : Task :=
  mkTask b "B" None None None "pending" "medium" [DepInt a] [].
Definition task_C (a c : Z) : Task :=
  mkTask c "C" None None None "pending" "high" [DepInt a] [].

(** A string in the shape "parentId.subId". *)
Definition subtask_shape (s : string) : bool :=
  match PyStr.split "." s with
  | [p0; p1] =>
      match PyStr.int p0, PyStr.int p1 with
      | Some _, Some _ => true
      | _, _ => false
      end
  | _ => false
  end.

(** A dependency reference that resolves to no task and no subtask. *)
Definition dangling (ts : list Task) (d : Dependency) : Prop :=
  lookup_result ts (dep_str d) = None.

(** A dependency reference that is neither an integer nor a string in the
    subtask shape. *)
Definition unrecognized (d : Dependency) : Prop :=
  match d with
  | DepInt _ => False
  | DepStr s => subtask_shape s = false
  end.

(** ** Cycle detection *)

(** Modelled from the spec: [find_circular_dependencies] of
    [dependencies.py], a file of the repository that is not among the
    sources; the definitions of this section follow section 4.2 of the
    specification.  A task node is labelled by its id as text, a subtask
    node by "parentId.subId". *)
Definition task_label (t : Task) : string := PyStr.of_Z (task_id t).

Definition subtask_label (t : Task) (st : Subtask) : string :=
  PyStr.of_Z (task_id t) +:+ "." +:+ PyStr.of_Z (sub_id st).

(** The nodes of a task: itself and its subtasks, each with the dependency
    references it declares. *)
Definition task_nodes (t : Task) : list (string * list Dependency) :=
  (task_label t, task_dependencies t)
  :: ((fun st => (subtask_label t st, sub_dependencies st)) <$> task_subtasks t).

Definition collection_nodes (ts : list Task) : list (string * list Dependency) :=
  ts ≫= task_nodes.

Definition node_labels (ts : list Task) : list string :=
  fst <$> collection_nodes ts.

(** The declared references whose node exists. *)
Definition existing_targets (labels : gset string) (deps : list Dependency)
  : list string :=
  filter (fun l => l ∈ labels) (dep_str <$> deps).

Definition build_graph (ts : list Task) : gmap string (list string) :=
  let labels : gset string := list_to_set (node_labels ts) in
  foldl (fun g nd => <[nd.1 := existing_targets labels nd.2]> g) ∅
        (collection_nodes ts).

Inductive DfsResult : Type :=
  | Cycle (path : list string)
  | Finished (visited : gset string)
  | OutOfFuel.

(** The part of the current path from [x] on. *)
Fixpoint path_from (x : string) (path : list string) : list string :=
  match path with
  | [] => []
  | y :: rest => if decide (y = x) then path else path_from x rest
  end.

(** The loop over the edges of the node on top of [path]; [rec] is the
    traversal of a node not seen so far. *)
Fixpoint visit_neighbours (rec : string -> gset string -> DfsResult)
    (path : list string) (nbs : list string) (visited : gset string)
  : DfsResult :=
  match nbs with
  | [] => Finished visited
  | nb :: rest =>
      if bool_decide (nb ∈ path) then Cycle (path_from nb path ++ [nb])
      else if bool_decide (nb ∈ visited)
      then visit_neighbours rec path rest visited
      else match rec nb visited with
           | Finished visited' => visit_neighbours rec path rest visited'
           | r => r
           end
  end.

(** Depth-first traversal from [node] with the current path [path] and the
    set [visited] of fully visited nodes; [fuel] bounds the depth. *)
Fixpoint dfs (fuel : nat) (graph : gmap string (list string)) (node : string)
    (visited : gset string) (path : list string) : DfsResult :=
  match fuel with
  | O => OutOfFuel
  | S fuel' =>
      let path' := path ++ [node] in
      match visit_neighbours (fun nb v => dfs fuel' graph nb v path') path'
                             (default [] (graph !! node)) visited with
      | Finished visited' => Finished ({[ node ]} ∪ visited')
      | r => r
      end
  end.

Fixpoint visit_roots (fuel : nat) (graph : gmap string (list string))
    (nodes : list string) (visited : gset string) : DfsResult :=
  match nodes with
  | [] => Finished visited
  | node :: rest =>
      if bool_decide (node ∈ visited) then visit_roots fuel graph rest visited
      else match dfs fuel graph node visited [] with
           | Finished visited' => visit_roots fuel graph rest visited'
           | r => r
           end
  end.

Inductive CycleResult : Type :=
  | CycleFound (path : list string)
  | NoCycle
  | FuelExhausted.

Definition find_circular_dependencies (ts : list Task) : CycleResult :=
  let labels : gset string := list_to_set (node_labels ts) in
  match visit_roots (size labels) (build_graph ts) (node_labels ts) ∅ with
  | Cycle path => CycleFound path
  | Finished _ => NoCycle
  | OutOfFuel => FuelExhausted
  end.

(** An edge of a graph. *)
Definition graph_edge (graph : gmap string (list string)) (a b : string) : Prop :=
  exists nbs, graph !! a = Some nbs /\ b ∈ nbs.

(** An edge of the dependency graph of a collection: from a node to the
    target of a reference it declares, when that target is a node. *)
Definition dep_edge (ts : list Task) (a b : string) : Prop :=
  exists deps d,
    (a, deps) ∈ collection_nodes ts /\ d ∈ deps /\ dep_str d = b /\
    b ∈ node_labels ts.

(** No node reaches itself along one edge or more. *)
Definition acyclic (ts : list Task) : Prop :=
  forall x, ~ tc (dep_edge ts) x x.

(** The nodes neither fully visited nor on the current path. *)
Definition unexplored (nodes visited : gset string) (path : list string)
  : gset string :=
  nodes ∖ (visited ∪ list_to_set path).

(** The collection of [test_circular_dependency_with_subtasks]. *)
Definition cyclic_tasks : list Task :=
  [ mkTask 1 "T1" None None None "pending" "medium" [DepStr "2.1"] [];
    mkTask 2 "T2" None None None "pending" "medium" []
      [ mkSubtask 1 "S2.1" None None "pending" None [DepInt 3] 2 ];
    mkTask 3 "T3" None None None "pending" "medium" [DepInt 1] [] ].

(** Every dependency reference declared in the collection is dangling: its
    target is no node. *)
Definition all_dangling (ts : list Task) : Prop :=
  forall node deps d,
    (node, deps) ∈ collection_nodes ts -> d ∈ deps ->
    dep_str d ∉ node_labels ts.

(** ** Identifier strings of entities *)

(** The identifier of a subtask, [f"{task.id}.{subtask.id}"]. *)
Definition composite_id (n k : Z) : string :=
  PyStr.of_Z n +:+ String "." (PyStr.of_Z k).

(** No task in front of position [i] has the id [n]. *)
Definition first_with_task_id (ts : list Task) (i : nat) (n : Z) : Prop :=
  forall j t', (j < i)%nat -> ts !! j = Some t' -> task_id t' <> n.

(** No subtask in front of position [j] has the id [k]. *)
Definition first_with_sub_id (sts : list Subtask) (j : nat) (k : Z) : Prop :=
  forall j' st', (j' < j)%nat -> sts !! j' = Some st' -> sub_id st' <> k.

(** ** What status updates keep *)

(** A task with every status blanked: what is left is the ids, titles,
    texts, priorities, dependency lists and the sequence of subtasks. *)
Definition erase_task (t : Task) : Task :=
  set_task_status_field ""
    (set_task_subtasks (set_sub_status "" <$> task_subtasks t) t).

Definition skeleton (ts : list Task) : list Task := erase_task <$> ts.

(** A computation that only changes statuses. *)
Definition status_only {A} (m : M A) : Prop :=
  forall w, skeleton (tasks (m w).2) = skeleton (tasks w).

(** ** Removing a subtask *)

(** [item.subtasks] on what [get_task_by_id] returned: a [Task] has the
    attribute, a [Subtask] object has none, and the read raises. *)
Definition Item_subtasks (it : Item) : M (list Subtask) :=
  match it with
  | ItemTask _ t => ret (task_subtasks t)
  | ItemSubtask _ _ _ => raise AttributeError
  end.

(** [item.subtasks = sts]; the model classes refuse the assignment of a
    field they do not declare with a [ValueError]. *)
Definition assign_subtasks (it : Item) (sts : list Subtask) : M unit :=
  match it with
  | ItemTask i _ => modify_tasks (alter (set_task_subtasks sts) i)
  | ItemSubtask _ _ _ => raise ValueError
  end.

Definition remove_subtask (task_id_str : string) (subtask_id : Z) : M bool :=
  task ← get_task_by_id task_id_str;
  match task with
  | None => ret false
  | Some task =>
      subtasks ← Item_subtasks task;
      if is_nil subtasks then ret false
      else
        let original_length := length subtasks in
        let kept := filter (fun st => sub_id st <> subtask_id) subtasks in
        assign_subtasks task kept;;
        if (length kept <? original_length)%nat then ret true else ret false
  end.

(** ** The [remove] command of the command line

    [remove_command] of [cli/main.py], from the loaded task list to what
    it saves; loading, saving and printing are left out. *)

(** [s.split(c, 1)] of a string that contains [c]. *)
Fixpoint split_once (c : ascii) (s : string) : string * string :=
  match s with
  | EmptyString => (EmptyString, EmptyString)
  | String a s' =>
      if Ascii.eqb a c then (EmptyString, s')
      else let (p, q) := split_once c s' in (String a p, q)
  end.

(** How the command ends: the rebuilt list is assigned and saved, or the
    command exits with code 1 and saves nothing. *)
Inductive CommandOutcome : Type :=
  | Saved (new_tasks : list Task)
  | ExitFailure.

(** The loop of the subtask branch: the tasks kept, the one with the parent
    id with its subtask list rebuilt, and the count of rebuilt lists that
    got shorter. *)
Fixpoint remove_subtask_loop (parent_id sub_id' : Z) (original_tasks : list Task)
  : list Task * nat :=
  match original_tasks with
  | [] => ([], O)
  | task :: rest =>
      let (new_tasks, removed_count) :=
        remove_subtask_loop parent_id sub_id' rest in
      if decide (task_id task = parent_id) then
        let kept := filter (fun st => sub_id st <> sub_id') (task_subtasks task) in
        (set_task_subtasks kept task :: new_tasks,
         if (length kept <? length (task_subtasks task))%nat
         then S removed_count else removed_count)
      else (task :: new_tasks, removed_count)
  end.

(** The loop of the task branch. *)
Fixpoint remove_task_loop (task_id_int : Z) (original_tasks : list Task)
  : list Task * nat :=
  match original_tasks with
  | [] => ([], O)
  | task :: rest =>
      let (new_tasks, removed_count) := remove_task_loop task_id_int rest in
      if decide (task_id task = task_id_int) then (new_tasks, S removed_count)
      else (task :: new_tasks, removed_count)
  end.

Definition remove_command (original_tasks : list Task) (task_id' : string)
  : CommandOutcome :=
  let counted : option (list Task * nat) :=
    if PyStr.contains "." task_id' then
      let (parent_id_str, sub_id_str) := split_once "." task_id' in
      match PyStr.int parent_id_str with
      | Some parent_id =>
          match PyStr.int sub_id_str with
          | Some sub_id' =>
              Some (remove_subtask_loop parent_id sub_id' original_tasks)
          | None => None
          end
      | None => None
      end
    else
      match PyStr.int task_id' with
      | Some task_id_int => Some (remove_task_loop task_id_int original_tasks)
      | None => None
      end in
  match counted with
  | None => ExitFailure
  | Some (new_tasks, removed_count) =>
      if (0 <? removed_count)%nat then Saved new_tasks else ExitFailure
  end.

(** The task list with the subtasks of id [k] taken out of the tasks of id
    [n]. *)
Definition without_subtask (n k : Z) (ts : list Task) : list Task :=
  (fun t => if decide (task_id t = n)
            then set_task_subtasks
                   (filter (fun st => sub_id st <> k) (task_subtasks t)) t
            else t) <$> ts.

Example int_examples :
  PyStr.int "12" = Some 12 /\ PyStr.int " 3 " = Some 3 /\
  PyStr.int "-7" = Some (-7) /\ PyStr.int "1_0" = Some 10 /\
  PyStr.int "" = None /\ PyStr.int "abc" = None /\
  PyStr.int "1__0" = None /\ PyStr.int "_1" = None /\ PyStr.int "1_" = None /\
  PyStr.int "+-1" = None /\ PyStr.int "007" = Some 7.
Proof. repeat split; reflexivity. Qed.

Example split_examples :
  PyStr.split "." "3.1" = ["3"; "1"] /\ PyStr.split "." "1." = ["1"; ""] /\
  PyStr.split "." ".1" = [""; "1"] /\ PyStr.split "." "1.2.3" = ["1"; "2"; "3"] /\
  PyStr.split "." "." = [""; ""] /\ PyStr.of_Z 42 = "42" /\
  PyStr.of_Z (-5) = "-5" /\ PyStr.of_Z 0 = "0".
Proof. repeat split; vm_compute; reflexivity. Qed.

Example sample_get_task_by_id :
  get_task_by_id "2" sample_world
    = (Return (ItemTask 1 <$> sample_tasks_list !! 1%nat), sample_world)
  /\ (exists st, get_task_by_id "3.1" sample_world
                 = (Return (Some (ItemSubtask 2 0 st)), sample_world)
                 /\ sub_title st = "Sub 3.1")
  /\ get_task_by_id "99" sample_world = (Return None, sample_world)
  /\ get_task_by_id "3.99" sample_world = (Return None, sample_world)
  /\ get_task_by_id "invalid" sample_world = (Return None, sample_world)
  /\ get_task_by_id "1." sample_world = (Return None, sample_world)
  /\ get_task_by_id ".1" sample_world = (Return None, sample_world).
Proof. vm_compute. repeat split; try reflexivity. eexists; split; reflexivity. Qed.

Example sample_find_next_task :
  (fst (find_next_task sample_world)) = Return (Some (2%nat, mkTask 3 "Task 3" None None None "pending" "high" [DepInt 1]
      [ mkSubtask 1 "Sub 3.1" None None "pending" (Some "medium") [] 3;
        mkSubtask 2 "Sub 3.2" None None "pending" (Some "medium") [DepInt 1] 3 ])).
Proof. vm_compute. reflexivity. Qed.

(** ** Reasoning about computations *)

Lemma read_only_ret {A} (a : A) : read_only (ret a).
Proof. by intros w. Qed.

Lemma read_only_raise {A} e : read_only (@raise A e).
Proof. by intros w. Qed.

Lemma read_only_get_tasks : read_only get_tasks.
Proof. by intros w. Qed.

Lemma read_only_bind {A B} (m : M A) (k : A -> M B) :
  read_only m -> (forall a, read_only (k a)) -> read_only (m ≫= k).
Proof.
  intros Hm Hk w. unfold mbind, M_bind.
  specialize (Hm w). destruct (m w) as [[a|e] w1]; simpl in *; subst; [apply Hk|done].
Qed.

Lemma read_only_try {A} (m : M A) h :
  read_only m -> (forall e, read_only (h e)) -> read_only (try_except m h).
Proof.
  intros Hm Hh w. unfold try_except.
  specialize (Hm w). destruct (m w) as [[a|e] w1]; simpl in *; subst; [done|apply Hh].
Qed.

Lemma tasks_only_ret {A} (a : A) : tasks_only (ret a).
Proof. by intros w w' _. Qed.

Lemma tasks_only_raise {A} e : tasks_only (@raise A e).
Proof. by intros w w' _. Qed.

Lemma tasks_only_get_tasks : tasks_only get_tasks.
Proof. intros w w' H. unfold get_tasks; simpl. by rewrite H. Qed.

Lemma tasks_only_bind {A B} (m : M A) (k : A -> M B) :
  read_only m -> tasks_only m -> (forall a, tasks_only (k a)) ->
  tasks_only (m ≫= k).
Proof.
  intros Hr Hm Hk w w' Hw. unfold mbind, M_bind.
  pose proof (Hr w) as H1. pose proof (Hr w') as H2. specialize (Hm w w' Hw).
  destruct (m w) as [[a|e] w1], (m w') as [[a'|e'] w1']; simpl in *; subst;
    try discriminate; [|by injection Hm as ->].
  injection Hm as ->. by apply Hk.
Qed.

Lemma tasks_only_try {A} (m : M A) h :
  read_only m -> tasks_only m -> (forall e, tasks_only (h e)) ->
  tasks_only (try_except m h).
Proof.
  intros Hr Hm Hh w w' Hw. unfold try_except.
  pose proof (Hr w) as H1. pose proof (Hr w') as H2. specialize (Hm w w' Hw).
  destruct (m w) as [[a|e] w1], (m w') as [[a'|e'] w1']; simpl in *; subst;
    try discriminate; [done|].
  injection Hm as ->. by apply Hh.
Qed.

Lemma returns_try {A} (m : M A) h :
  (forall e, returns (h e)) -> returns (try_except m h).
Proof.
  intros Hh w. unfold try_except.
  destruct (m w) as [[a|e] w1]; simpl; [by exists a|apply Hh].
Qed.

Lemma returns_ret {A} (a : A) : returns (ret a).
Proof. intros w. by exists a. Qed.

Lemma read_only_py_int s : read_only (py_int s).
Proof. unfold py_int. destruct (PyStr.int s); [apply read_only_ret|apply read_only_raise]. Qed.

Lemma tasks_only_py_int s : tasks_only (py_int s).
Proof. unfold py_int. destruct (PyStr.int s); [apply tasks_only_ret|apply tasks_only_raise]. Qed.

Lemma read_only_next_task n : read_only (next_task n).
Proof. by intros w. Qed.

Lemma tasks_only_next_task n : tasks_only (next_task n).
Proof. intros w w' H. unfold next_task, get_tasks, mbind, M_bind, ret; simpl. by rewrite H. Qed.

Create HintDb frame discriminated.
#[local] Hint Resolve read_only_ret read_only_raise read_only_get_tasks
  read_only_py_int read_only_next_task tasks_only_ret tasks_only_raise
  tasks_only_get_tasks tasks_only_py_int tasks_only_next_task returns_ret : frame.

(** Splits a goal about a computation along its binds and branches. *)
Ltac frame_step :=
  first
    [ apply read_only_bind; [|intros ?]
    | apply tasks_only_bind; [| |intros ?]
    | apply read_only_try; [|intros ?]
    | apply tasks_only_try; [| |intros ?]
    | progress auto with frame
    | match goal with
      | |- context [match ?x with _ => _ end] => destruct x
      end ].

Lemma read_only_get_task_by_id s : read_only (get_task_by_id s).
Proof. unfold get_task_by_id. repeat frame_step. Qed.

Lemma tasks_only_get_task_by_id s : tasks_only (get_task_by_id s).
Proof. unfold get_task_by_id. repeat frame_step. Qed.

Lemma returns_get_task_by_id s : returns (get_task_by_id s).
Proof.
  unfold get_task_by_id. destruct (String.eqb s ""); [apply returns_ret|].
  apply returns_try. intros _. apply returns_ret.
Qed.

Lemma get_task_by_id_eq s w :
  get_task_by_id s w = (Return (lookup_result (tasks w) s), w).
Proof.
  unfold lookup_result.
  rewrite <- (tasks_only_get_task_by_id s w (mkWorld (tasks w) [])) by done.
  pose proof (read_only_get_task_by_id s w) as Hw.
  destruct (returns_get_task_by_id s w) as [r Hr].
  destruct (get_task_by_id s w) as [o w1]; simpl in *. by subst.
Qed.

(** Unfolds the monad operations in a goal. *)
Ltac run :=
  unfold py_int, next_task, modify_tasks in *;
  unfold mbind, M_bind, ret, mret, M_ret, raise, try_except, get_tasks,
    put_tasks, history_append in *;
  simpl in *.

Lemma lookup_result_task ts s i t :
  lookup_result ts s = Some (ItemTask i t) ->
  PyStr.contains "." s = false /\
  exists n, PyStr.int s = Some n /\
            list_find (fun t => task_id t = n) ts = Some (i, t).
Proof.
  unfold lookup_result, get_task_by_id.
  destruct (String.eqb s ""); [done|].
  destruct (PyStr.contains "." s) eqn:Hdot.
  - run. destruct (PyStr.split "." s) as [|p0 [|p1 [|]]]; try done.
    destruct (_ || _); [done|]. run.
    destruct (PyStr.int p0); run; [|done].
    destruct (PyStr.int p1); run; [|done].
    destruct (list_find _ ts) as [[i' t']|]; run; [|done].
    destruct (is_nil _); [done|].
    by destruct (next_subtask _ _) as [[??]|].
  - run. destruct (PyStr.int s) as [n|]; run; [|done].
    destruct (list_find _ ts) as [[i' t']|] eqn:Hf; run; [|done].
    intros [= -> ->]. split; [done|]. by exists n.
Qed.

Lemma lookup_result_subtask ts s i j st :
  lookup_result ts s = Some (ItemSubtask i j st) ->
  exists p0 p1 n k t,
    PyStr.split "." s = [p0; p1] /\
    PyStr.int p0 = Some n /\ PyStr.int p1 = Some k /\
    list_find (fun t => task_id t = n) ts = Some (i, t) /\
    list_find (fun st => sub_id st = k) (task_subtasks t) = Some (j, st).
Proof.
  unfold lookup_result, get_task_by_id.
  destruct (String.eqb s ""); [done|].
  destruct (PyStr.contains "." s) eqn:Hdot.
  - run. destruct (PyStr.split "." s) as [|p0 [|p1 [|]]] eqn:Hs; try done.
    destruct (_ || _); [done|]. run.
    destruct (PyStr.int p0) as [n|] eqn:E0; run; [|done].
    destruct (PyStr.int p1) as [k|] eqn:E1; run; [|done].
    destruct (list_find _ ts) as [[i' t']|] eqn:Hf; run; [|done].
    destruct (is_nil _); [done|]. unfold next_subtask.
    destruct (list_find _ (task_subtasks t')) as [[j' st']|] eqn:Hg; run; [|done].
    intros [= -> -> ->]. by exists p0, p1, n, k, t'.
  - run. destruct (PyStr.int s) as [n|]; run; [|done].
    by destruct (list_find _ ts) as [[i' t']|].
Qed.

(** An entity handed out by the lookup is in the collection, at the position
    it is handed out with. *)
Lemma lookup_result_task_lookup ts s i t :
  lookup_result ts s = Some (ItemTask i t) -> ts !! i = Some t.
Proof.
  intros (_ & n & _ & Hf)%lookup_result_task.
  by apply list_find_Some in Hf as (? & _).
Qed.

Lemma lookup_result_subtask_lookup ts s i j st :
  lookup_result ts s = Some (ItemSubtask i j st) ->
  exists t, ts !! i = Some t /\ task_subtasks t !! j = Some st.
Proof.
  intros (p0 & p1 & n & k & t & _ & _ & _ & Hf & Hg)%lookup_result_subtask.
  exists t. apply list_find_Some in Hf as (? & _).
  by apply list_find_Some in Hg as (? & _).
Qed.

(** *** Facts on [split] and [contains] *)

Lemma split_length c s : length (PyStr.split c s) = S (count_char c s).
Proof.
  induction s as [|a s IH]; simpl; [done|].
  destruct (Ascii.eqb a c); simpl; [by rewrite IH|].
  destruct (PyStr.split c s); simpl in *; [done|lia].
Qed.

Lemma contains_count c s : PyStr.contains c s = negb (Nat.eqb (count_char c s) 0).
Proof.
  induction s as [|a s IH]; simpl; [done|]. by destruct (Ascii.eqb a c).
Qed.

Lemma split_no_sep c s : PyStr.contains c s = false -> PyStr.split c s = [s].
Proof.
  induction s as [|a s IH]; simpl; [done|].
  destruct (Ascii.eqb a c); [done|]. intros H. by rewrite IH.
Qed.

Lemma split_app c p0 p1 :
  PyStr.contains c p0 = false ->
  PyStr.split c (p0 +:+ String c p1) = p0 :: PyStr.split c p1.
Proof.
  induction p0 as [|a p0 IH]; simpl.
  - intros _. by rewrite Ascii.eqb_refl.
  - destruct (Ascii.eqb a c); [done|]. intros H. by rewrite IH.
Qed.

Lemma contains_app c p0 p1 : PyStr.contains c (p0 +:+ String c p1) = true.
Proof.
  induction p0 as [|a p0 IH]; simpl.
  - by rewrite Ascii.eqb_refl.
  - by destruct (Ascii.eqb a c).
Qed.

(** ** Malformed identifiers *)




(** ** Status updates *)

Arguments get_task_by_id : simpl never.

Lemma done_is_valid : bool_decide ("done" ∈ Status_args) = true.
Proof. by apply bool_decide_eq_true; set_solver. Qed.

(** A search for a property that the update does not touch finds the same
    position, holding the updated element at the updated position. *)
Lemma list_find_alter {A} (P : A -> Prop) `{!forall x, Decision (P x)}
    (f : A -> A) (l : list A) (i k : nat) (x : A) :
  (forall y, P (f y) <-> P y) ->
  list_find P l = Some (k, x) ->
  list_find P (alter f i l) = Some (k, if decide (k = i) then f x else x).
Proof.
  intros Hf. revert i k x. induction l as [|a l IH]; intros i k x; [done|].
  destruct i as [|i]; simpl.
  - destruct (decide (P a)) as [Ha|Ha].
    + rewrite decide_True by by apply Hf. by intros [= <- <-].
    + rewrite decide_False by by rewrite Hf.
      destruct (list_find P l) as [[k' x']|]; simpl; [|done].
      by intros [= <- <-].
  - destruct (decide (P a)) as [Ha|Ha].
    + by intros [= <- <-].
    + destruct (list_find P l) as [[k' x']|] eqn:E; simpl; [|done].
      intros [= <- <-]. change (list_alter f i l) with (alter f i l).
      rewrite (IH i k' x' eq_refl). simpl.
      destruct (decide (k' = i)); [by rewrite decide_True by lia|].
      by rewrite decide_False by lia.
Qed.

Lemma set_task_status_rec_invalid d s ns w :
  ns ∉ Status_args -> set_task_status_rec (S d) s ns w = (Return false, w).
Proof. intros H. simpl. by rewrite bool_decide_eq_false_2. Qed.

Lemma set_task_status_rec_not_found d s ns w :
  lookup_result (tasks w) s = None ->
  set_task_status_rec (S d) s ns w = (Return false, w).
Proof.
  intros H. simpl. destruct (bool_decide _); [|done]. simpl. run.
  by rewrite get_task_by_id_eq, H.
Qed.

(** C3: called with a status outside the six valid values, or with an
    identifier that resolves to no task or subtask, [set_task_status]
    returns [False] and leaves the world as it was: every task and subtask
    of the collection, and the execution history. *)
Theorem set_task_status_rejects (w : World) (s ns : string) :
  ns ∉ Status_args \/ (get_task_by_id s w).1 = Return None ->
  set_task_status s ns w = (Return false, w).
Proof.
  intros [H|H]; unfold set_task_status, recursion_limit.
  - by apply set_task_status_rec_invalid.
  - apply set_task_status_rec_not_found.
    rewrite get_task_by_id_eq in H. simpl in H. congruence.
Qed.

Lemma set_task_status_rejects_witness :
  set_task_status "2" "invalid_status" sample_world = (Return false, sample_world)
  /\ set_task_status "99" "done" sample_world = (Return false, sample_world).
Proof.
  split.
  - apply (set_task_status_rejects sample_world "2" "invalid_status").
    left. vm_compute. intros H. repeat (inversion H as [|? ? ? H']; clear H; rename H' into H).
  - apply (set_task_status_rejects sample_world "99" "done").
    right. reflexivity.
Defined.

(** What a call does that sets a subtask, not yet done, to done: the
    subtask is updated and the update recorded; when this leaves all
    siblings done under a parent that is not, the parent is set to done and
    the read of its [parent_task_id] raises. *)
Lemma set_task_status_rec_subtask_done d s w i j st p :
  lookup_result (tasks w) s = Some (ItemSubtask i j st) ->
  tasks w !! i = Some p ->
  sub_status st <> "done" ->
  sub_parent_task_id st = task_id p ->
  let ts1 := alter (set_task_subtasks (siblings_after j p)) i (tasks w) in
  let h1 := task_execution_history w
            ++ [mkExecRecord s (sub_status st) "done" true] in
  set_task_status_rec (S d) s "done" w =
    if all_done (siblings_after j p)
       && negb (String.eqb (task_status p) "done")
    then (Raise AttributeError,
          mkWorld (alter (set_task_status_field "done") i ts1) h1)
    else (Return true, mkWorld ts1 h1).
Proof.
  intros Hres Hp Hst Hback ts1 h1.
  pose proof Hres as (p0 & p1 & n & k & t & _ & _ & _ & Hf & Hg)%lookup_result_subtask.
  pose proof Hf as (Hp' & Hid & _)%list_find_Some.
  assert (t = p) as -> by congruence. subst n.
  pose proof Hg as (Hj & _)%list_find_Some.
  simpl. run.
  rewrite get_task_by_id_eq, Hres. simpl.
  rewrite (proj2 (String.eqb_neq _ _) Hst). simpl.
  set (g := fun t => set_task_subtasks
                       (alter (set_sub_status "done") j (task_subtasks t)) t).
  assert (Halt : alter g i (tasks w) = ts1).
  { subst ts1. apply list_alter_ext; [|done]. intros t Ht.
    assert (t = p) as -> by congruence. done. }
  rewrite Halt. rewrite Hback.
  assert (Hfind : list_find (fun t => task_id t = task_id p) ts1
                  = Some (i, set_task_subtasks (siblings_after j p) p)).
  { subst ts1.
    rewrite (list_find_alter _ _ _ i i p); [by rewrite decide_True| |].
    - intros y. done.
    - done. }
  rewrite Hfind. simpl.
  assert (Hnil : is_nil (siblings_after j p) = false).
  { unfold siblings_after. destruct (task_subtasks p); [done|by destruct j]. }
  rewrite Hnil. simpl. fold (all_done (siblings_after j p)).
  by destruct (all_done _ && _).
Qed.

(** A call that names a subtask already done changes nothing. *)
Lemma set_task_status_rec_same d s ns w it :
  ns ∈ Status_args ->
  lookup_result (tasks w) s = Some it ->
  item_status it = ns ->
  set_task_status_rec (S d) s ns w = (Return true, w).
Proof.
  intros Hv Hres Hs. simpl. rewrite bool_decide_eq_true_2 by done. simpl. run.
  rewrite get_task_by_id_eq, Hres. simpl. rewrite Hs.
  by rewrite String.eqb_refl.
Qed.

Lemma all_done_Forall sts : all_done sts = true <-> Forall sub_done sts.
Proof.
  unfold all_done, sub_done. rewrite forallb_forall, Forall_forall.
  split; intros H x Hx.
  - apply String.eqb_eq, H. by apply list_elem_of_In.
  - apply String.eqb_eq, H. by apply list_elem_of_In.
Qed.

(** C1: let the identifier name a subtask S, not yet done, of the task [p]
    that S refers to as its parent, and let [set_task_status] set S to done.
    Afterwards the siblings under [p] are those from before with S done, and
    [p] has been set to done (it was not done and now is) if and only if all
    siblings are now done and [p] was not done already; if some sibling is
    not done, the status of [p] is what it was. *)
Theorem set_task_status_parent_done (w : World) (s : string) (i j : nat)
    (st : Subtask) (p : Task) :
  (get_task_by_id s w).1 = Return (Some (ItemSubtask i j st)) ->
  tasks w !! i = Some p ->
  sub_status st <> "done" ->
  sub_parent_task_id st = task_id p ->
  exists p',
    tasks (set_task_status s "done" w).2 !! i = Some p' /\
    task_subtasks p' = <[j := set_sub_status "done" st]> (task_subtasks p) /\
    ((task_status p <> "done" /\ task_status p' = "done") <->
     (Forall sub_done (task_subtasks p') /\ task_status p <> "done")) /\
    (~ Forall sub_done (task_subtasks p') -> task_status p' = task_status p).
Proof.
  intros Hres Hp Hst Hback.
  rewrite get_task_by_id_eq in Hres. simpl in Hres. injection Hres as Hres.
  destruct (lookup_result_subtask_lookup _ _ _ _ _ Hres) as (t & Ht & Hj).
  assert (t = p) as -> by congruence.
  assert (Hsib : siblings_after j p
                 = <[j := set_sub_status "done" st]> (task_subtasks p)).
  { unfold siblings_after. apply list_eq. intros k.
    destruct (decide (k = j)) as [->|Hk].
    - rewrite list_lookup_alter_eq, Hj. simpl.
      by rewrite list_lookup_insert_eq by by eapply lookup_lt_Some.
    - by rewrite list_lookup_alter_ne, list_lookup_insert_ne by done. }
  unfold set_task_status, recursion_limit.
  rewrite (set_task_status_rec_subtask_done _ s w i j st p) by done.
  destruct (all_done (siblings_after j p)) eqn:Hall; simpl.
  - apply all_done_Forall in Hall.
    destruct (String.eqb (task_status p) "done") eqn:Hpd; simpl.
    + apply String.eqb_eq in Hpd.
      exists (set_task_subtasks (siblings_after j p) p).
      rewrite list_lookup_alter_eq, Hp. simpl.
      repeat split; try done; try tauto; try naive_solver.
    + apply String.eqb_neq in Hpd.
      exists (set_task_status_field "done"
                (set_task_subtasks (siblings_after j p) p)).
      rewrite !list_lookup_alter_eq, Hp. simpl.
      repeat split; try done; try tauto; try naive_solver.
  - assert (~ Forall sub_done (siblings_after j p)) as Hn.
    { rewrite <- all_done_Forall. congruence. }
    exists (set_task_subtasks (siblings_after j p) p).
    rewrite list_lookup_alter_eq, Hp. simpl.
    repeat split; try done; try tauto; try naive_solver.
Qed.

Lemma set_task_status_parent_done_witness :
  exists p',
    tasks (set_task_status "3.2" "done"
             (set_task_status "3.1" "done" in_progress_world).2).2 !! 2%nat
      = Some p' /\ task_status p' = "done".
Proof.
  set (w := (set_task_status "3.1" "done" in_progress_world).2).
  destruct (set_task_status_parent_done w "3.2" 2 1
              (mkSubtask 2 "Sub 3.2" None None "pending" (Some "medium") [DepInt 1] 3)
              (mkTask 3 "Task 3" None None None "in-progress" "high" [DepInt 1]
                 [ mkSubtask 1 "Sub 3.1" None None "done" (Some "medium") [] 3;
                   mkSubtask 2 "Sub 3.2" None None "pending" (Some "medium") [DepInt 1] 3 ]))
    as (p' & Hp' & Hsub & Hiff & _).
  - vm_compute. reflexivity.
  - vm_compute. reflexivity.
  - simpl. discriminate.
  - reflexivity.
  - exists p'. split; [exact Hp'|].
    apply Hiff. rewrite Hsub. split.
    + repeat constructor.
    + simpl. discriminate.
Defined.

(** C2 (the claim fails on this input): in the collection of the unit
    tests with task 3 in progress, setting subtask 3.1 to done returns
    [True], and setting then 3.2 to done, which sets the parent to done,
    does not return: the read of [parent_task_id] on the parent task
    raises [AttributeError]. *)
Theorem set_task_status_raises :
  (set_task_status "3.1" "done" in_progress_world).1 = Return true /\
  (set_task_status "3.2" "done"
     (set_task_status "3.1" "done" in_progress_world).2).1
  = Raise AttributeError.
Proof. split; vm_compute; reflexivity. Qed.

(** Apart from that read, [set_task_status] returns a boolean. *)
Lemma set_task_status_outcome s ns w :
  (exists b, (set_task_status s ns w).1 = Return b) \/
  ((set_task_status s ns w).1 = Raise AttributeError /\ ns = "done" /\
   exists i j st, lookup_result (tasks w) s = Some (ItemSubtask i j st)).
Proof.
  unfold set_task_status, recursion_limit. simpl.
  destruct (bool_decide _); simpl; [|by left; eexists].
  run. rewrite get_task_by_id_eq. simpl.
  destruct (lookup_result (tasks w) s) as [[i t|i j st]|] eqn:Hres;
    [| |by left; eexists].
  - simpl. destruct (String.eqb _ ns); [by left; eexists|]. simpl.
    destruct (_ && _); simpl; by left; eexists.
  - simpl. destruct (String.eqb _ ns); [by left; eexists|]. simpl.
    destruct (String.eqb ns "done") eqn:E; [|by left; eexists].
    apply String.eqb_eq in E. subst ns.
    destruct (list_find _ _) as [[pi pt]|]; simpl; [|by left; eexists].
    destruct (negb _); simpl; [|by left; eexists].
    destruct (_ && _); simpl; [|by left; eexists].
    right. split; [done|]. split; [done|]. by exists i, j, st.
Qed.

(** ** The scheduler reads only *)

#[local] Hint Resolve read_only_get_task_by_id tasks_only_get_task_by_id : frame.

Lemma read_only_deps_met c deps : read_only (deps_met c deps).
Proof.
  induction deps as [|[n|s] deps IH]; simpl; repeat frame_step.
Qed.

Lemma tasks_only_deps_met c deps : tasks_only (deps_met c deps).
Proof.
  pose proof read_only_deps_met.
  induction deps as [|[n|s] deps IH]; simpl; repeat frame_step.
Qed.

#[local] Hint Resolve read_only_deps_met tasks_only_deps_met : frame.

Lemma read_only_collect_eligible c i ts : read_only (collect_eligible c i ts).
Proof.
  revert i. induction ts as [|t ts IH]; intros i; simpl; repeat frame_step.
Qed.

Lemma read_only_find_next_task : read_only find_next_task.
Proof.
  pose proof read_only_collect_eligible.
  unfold find_next_task. repeat frame_step.
Qed.

(** C10: the read operations leave the collection as it was, on every
    input: after [get_task_by_id] and after [find_next_task] the world,
    and so every field of every task and subtask, is the one from before
    the call. *)
Theorem read_operations_frame (w : World) (s : string) :
  (get_task_by_id s w).2 = w /\ (find_next_task w).2 = w.
Proof.
  split; [apply read_only_get_task_by_id|apply read_only_find_next_task].
Qed.

(** ** Adding tasks and subtasks *)

Lemma valid_dependencies_eq deps w :
  valid_dependencies deps w =
    (Return (filter (fun d => is_Some (lookup_result (tasks w) (dep_str d))) deps), w).
Proof.
  induction deps as [|d deps IH]; [done|].
  simpl. run. rewrite get_task_by_id_eq, IH. simpl.
  destruct (lookup_result (tasks w) (dep_str d)) eqn:E.
  - by rewrite filter_cons_True by (by rewrite E).
  - by rewrite filter_cons_False by (rewrite E; by intros [??]).
Qed.

Lemma max_of_spec a l :
  max_of a l ∈ a :: l /\ forall x, x ∈ a :: l -> x <= max_of a l.
Proof.
  unfold max_of. revert a. induction l as [|b l IH]; intros a; simpl.
  - split; [apply elem_of_cons; by left|].
    intros x ->%list_elem_of_singleton. lia.
  - destruct (IH (Z.max a b)) as [Hin Hle]. split.
    + rewrite !elem_of_cons. apply elem_of_cons in Hin as [Hin|Hin]; [|tauto].
      rewrite Hin. destruct (Z.max_spec a b) as [[_ ->]|[_ ->]]; tauto.
    + intros x Hx. rewrite !elem_of_cons in Hx. destruct Hx as [->|[->|Hx]].
      * trans (Z.max a b); [lia|]. apply Hle, elem_of_cons. by left.
      * trans (Z.max a b); [lia|]. apply Hle, elem_of_cons. by left.
      * apply Hle, elem_of_cons. by right.
Qed.

Lemma next_task_id_spec ts : max_plus_one (task_id <$> ts) (next_task_id ts).
Proof.
  destruct ts as [|t ts]; [done|]. simpl.
  destruct (max_of_spec (task_id t) (task_id <$> ts)) as [Hin Hle]. split.
  - by replace (_ + 1 - 1) with (max_of (task_id t) (task_id <$> ts)) by lia.
  - intros x Hx. specialize (Hle x Hx). lia.
Qed.

Lemma next_sub_id_spec sts : max_plus_one (sub_id <$> sts) (next_sub_id sts).
Proof.
  destruct sts as [|t ts]; [done|]. simpl.
  destruct (max_of_spec (sub_id t) (sub_id <$> ts)) as [Hin Hle]. split.
  - by replace (_ + 1 - 1) with (max_of (sub_id t) (sub_id <$> ts)) by lia.
  - intros x Hx. specialize (Hle x Hx). lia.
Qed.

Lemma max_plus_one_fresh ids n : max_plus_one ids n -> n ∉ ids.
Proof.
  destruct ids as [|a ids]; simpl; [intros _; apply not_elem_of_nil|].
  intros [_ H] Hn. specialize (H n Hn). lia.
Qed.

Lemma add_new_task_eq title description priority dependencies w :
  let t := mkTask (next_task_id (tasks w)) title description None None
             "pending" priority
             (filter (fun d => is_Some (lookup_result (tasks w) (dep_str d)))
                     dependencies) [] in
  add_new_task title description priority dependencies w =
    (Return (length (tasks w), t),
     mkWorld (tasks w ++ [t]) (task_execution_history w)).
Proof. unfold add_new_task. run. by rewrite valid_dependencies_eq. Qed.

Lemma add_subtask_eq pid title description priority dependencies w i pt :
  list_find (fun t => task_id t = pid) (tasks w) = Some (i, pt) ->
  let st := mkSubtask (next_sub_id (task_subtasks pt)) title description None
              "pending" (Some priority)
              (filter (fun d => is_Some (lookup_result (tasks w) (dep_str d)))
                      dependencies) pid in
  add_subtask pid title description priority dependencies w =
    (Return (ItemSubtask i (length (task_subtasks pt)) st),
     mkWorld (<[i := set_task_subtasks (task_subtasks pt ++ [st]) pt]> (tasks w))
             (task_execution_history w)).
Proof.
  intros Hf. unfold add_subtask. run. rewrite Hf. simpl.
  rewrite valid_dependencies_eq. simpl. do 2 f_equal.
  apply list_find_Some in Hf as (Hi & _).
  apply list_eq. intros k. destruct (decide (k = i)) as [->|Hk].
  - rewrite list_lookup_alter_eq, Hi. simpl.
    by rewrite list_lookup_insert_eq by by eapply lookup_lt_Some.
  - by rewrite list_lookup_alter_ne, list_lookup_insert_ne by done.
Qed.

Lemma add_subtask_parent_missing pid title description priority dependencies w :
  list_find (fun t => task_id t = pid) (tasks w) = None ->
  add_subtask pid title description priority dependencies w
  = (Raise ParentTaskNotFoundError, w).
Proof. intros H. unfold add_subtask. run. by rewrite H. Qed.

(** C7: for a parent id that no top-level task has, [add_subtask] raises
    [ParentTaskNotFoundError] and leaves the world as it was: no subtask
    list, and nothing else, is modified. *)
Theorem add_subtask_parent_not_found (w : World) (parent_task_id : Z)
    (title : string) (description : option string) (priority : string)
    (dependencies : list Dependency) :
  (forall t, t ∈ tasks w -> task_id t <> parent_task_id) ->
  add_subtask parent_task_id title description priority dependencies w
  = (Raise ParentTaskNotFoundError, w).
Proof.
  intros H. apply add_subtask_parent_missing.
  apply list_find_None, Forall_forall. intros t Ht. by apply H.
Qed.

Lemma add_subtask_parent_not_found_witness :
  add_subtask 99 "Subtask" None DEFAULT_PRIORITY [] sample_world
  = (Raise ParentTaskNotFoundError, sample_world).
Proof.
  apply (add_subtask_parent_not_found sample_world 99 "Subtask" None
           DEFAULT_PRIORITY []).
  intros t Ht. vm_compute in Ht.
  repeat (inversion Ht as [|? ? ? Ht']; subst; clear Ht; [discriminate|];
          rename Ht' into Ht).
  inversion Ht.
Defined.

Lemma ids_unique_add_task ts t :
  ids_unique ts -> task_id t ∉ task_id <$> ts -> task_subtasks t = [] ->
  ids_unique (ts ++ [t]).
Proof.
  intros [Hts Hsub] Hfresh Hnil. split.
  - rewrite fmap_app. apply NoDup_app. split; [done|]. split.
    + intros x Hx ->%list_elem_of_singleton. done.
    + apply NoDup_singleton.
  - apply Forall_app. split; [done|]. apply Forall_singleton.
    rewrite Hnil. apply NoDup_nil_2.
Qed.

Lemma ids_unique_add_subtask ts i pt st :
  ids_unique ts -> ts !! i = Some pt ->
  sub_id st ∉ sub_id <$> task_subtasks pt ->
  ids_unique (<[i := set_task_subtasks (task_subtasks pt ++ [st]) pt]> ts).
Proof.
  intros [Hts Hsub] Hi Hfresh. split.
  - rewrite list_fmap_insert. simpl. rewrite list_insert_id; [done|].
    by rewrite list_lookup_fmap, Hi.
  - apply Forall_insert; [done|]. simpl. rewrite fmap_app.
    apply NoDup_app. split; [by eapply (Forall_lookup_1 _ _ _ _ Hsub Hi)|].
    split.
    + intros x Hx ->%list_elem_of_singleton. done.
    + apply NoDup_singleton.
Qed.

(** C8: on a collection whose task ids are pairwise distinct and whose
    subtask ids are pairwise distinct within each task, and for a priority
    the constructors accept, [add_new_task] returns and appends a task
    whose id is 1 when the collection is empty and else the largest id
    plus one.  [add_subtask] returns when a task has the parent id, and
    then appends to that task a subtask whose id is 1 when the parent has
    no subtask and else the largest sibling id plus one; it raises, with
    the world unchanged, when no task has the parent id.  After either
    operation, returning or raising, the ids are still distinct in this
    sense. *)
Theorem add_keeps_ids_unique (w : World) (title : string)
    (description : option string) (priority : string)
    (dependencies : list Dependency) :
  ids_unique (tasks w) ->
  priority ∈ Priority_args ->
  (let r := add_new_task title description priority dependencies w in
   ids_unique (tasks r.2) /\
   exists i t, r.1 = Return (i, t) /\ tasks r.2 = tasks w ++ [t] /\
               max_plus_one (task_id <$> tasks w) (task_id t)) /\
  (forall parent_task_id,
     let r := add_subtask parent_task_id title description priority
                          dependencies w in
     ids_unique (tasks r.2) /\
     (forall i j st, r.1 = Return (ItemSubtask i j st) ->
        exists pt,
          tasks w !! i = Some pt /\ task_id pt = parent_task_id /\
          max_plus_one (sub_id <$> task_subtasks pt) (sub_id st) /\
          tasks r.2 = <[i := set_task_subtasks (task_subtasks pt ++ [st]) pt]>
                        (tasks w)) /\
     ((exists t, t ∈ tasks w /\ task_id t = parent_task_id) ->
      exists i j st pt,
        r.1 = Return (ItemSubtask i j st) /\
        tasks w !! i = Some pt /\ task_id pt = parent_task_id /\
        j = length (task_subtasks pt) /\
        max_plus_one (sub_id <$> task_subtasks pt) (sub_id st) /\
        sub_parent_task_id st = parent_task_id /\
        tasks r.2 = <[i := set_task_subtasks (task_subtasks pt ++ [st]) pt]>
                      (tasks w)) /\
     ((forall t, t ∈ tasks w -> task_id t <> parent_task_id) ->
      r = (Raise ParentTaskNotFoundError, w))).
Proof.
  intros Huniq _. split.
  - rewrite add_new_task_eq. simpl. split.
    + apply ids_unique_add_task; [done| |done]. simpl.
      apply max_plus_one_fresh, next_task_id_spec.
    + eexists _, _. split; [done|]. split; [done|]. apply next_task_id_spec.
  - intros pid.
    destruct (list_find (fun t => task_id t = pid) (tasks w))
      as [[i pt]|] eqn:Hf.
    + rewrite (add_subtask_eq _ _ _ _ _ _ i pt Hf). simpl.
      pose proof Hf as (Hi & Hid & _)%list_find_Some.
      split; [|split; [|split]].
      * apply ids_unique_add_subtask; [done|done|]. simpl.
        apply max_plus_one_fresh, next_sub_id_spec.
      * intros i' j st [= <- <- <-]. exists pt.
        split; [done|]. split; [done|]. split; [|done]. apply next_sub_id_spec.
      * intros _. eexists i, _, _, pt. split; [done|].
        split; [done|]. split; [done|].
        split; [done|].
        split; [apply next_sub_id_spec|]. split; done.
      * intros Hnone. apply list_elem_of_lookup_2 in Hi.
        by destruct (Hnone pt Hi).
    + rewrite add_subtask_parent_missing by done. simpl.
      split; [done|]. split; [by intros i j st|]. split; [|done].
      intros (t & Ht & Hid). apply list_find_None in Hf.
      rewrite Forall_forall in Hf. by destruct (Hf t Ht).
Qed.

Lemma ids_unique_sample : ids_unique sample_tasks_list.
Proof.
  split.
  - simpl. repeat (apply NoDup_cons; split;
                   [rewrite ?elem_of_cons, elem_of_nil; lia|]).
    apply NoDup_nil_2.
  - simpl. repeat (apply Forall_cons; split); try apply Forall_nil_2; simpl;
      repeat (apply NoDup_cons; split;
              [rewrite ?elem_of_cons, elem_of_nil; lia|]);
      apply NoDup_nil_2.
Defined.

Lemma add_keeps_ids_unique_witness :
  ids_unique (tasks (add_new_task "Manual Task" (Some "Desc") "high" [DepInt 1]
                       sample_world).2) /\
  ids_unique (tasks (add_subtask 3 "Manual Task" (Some "Desc") "high"
                       [DepInt 1] sample_world).2) /\
  exists i j st pt,
    (add_subtask 3 "Manual Task" (Some "Desc") "high" [DepInt 1]
       sample_world).1 = Return (ItemSubtask i j st) /\
    tasks sample_world !! i = Some pt /\ task_id pt = 3 /\ sub_id st = 3.
Proof.
  destruct (add_keeps_ids_unique sample_world "Manual Task" (Some "Desc")
              "high" [DepInt 1]) as [[Hnew _] Hsub].
  - exact ids_unique_sample.
  - apply elem_of_cons. right. apply elem_of_cons. right.
    apply elem_of_cons. by left.
  - destruct (Hsub 3) as (Huniq & _ & Hret & _).
    split; [exact Hnew|]. split; [exact Huniq|].
    destruct Hret as (i & j & st & pt & Hr & Hi & Hid & _ & _ & _ & _).
    + exists (mkTask 3 "Task 3" None None None "pending" "high" [DepInt 1]
                [ mkSubtask 1 "Sub 3.1" None None "pending" (Some "medium") [] 3;
                  mkSubtask 2 "Sub 3.2" None None "pending" (Some "medium")
                    [DepInt 1] 3 ]).
      split; [|reflexivity].
      do 2 (apply elem_of_cons; right). apply elem_of_cons. by left.
    + exists i, j, st, pt. split; [exact Hr|]. split; [exact Hi|].
      split; [exact Hid|].
      vm_compute in Hr. injection Hr as _ _ <-. reflexivity.
Defined.

(** ** [int(str(n))] is [n] *)

Lemma digit_of_pretty_N_char d :
  (d < 10)%N -> PyStr.digit_of (pretty.pretty_N_char d) = Some (Z.of_N d).
Proof.
  intros H.
  assert (d = 0 \/ d = 1 \/ d = 2 \/ d = 3 \/ d = 4 \/ d = 5 \/ d = 6
          \/ d = 7 \/ d = 8 \/ d = 9)%N as Hd by lia.
  repeat (destruct Hd as [->|Hd]; [reflexivity|]). by subst.
Qed.

Lemma digits_pretty_N_go x s prev :
  (0 < x)%N ->
  PyStr.digits 0 prev (pretty.pretty_N_go x s) = PyStr.digits (Z.of_N x) true s.
Proof.
  revert s prev. induction (N.lt_wf_0 x) as [x _ IH]. intros s prev Hx.
  rewrite pretty.pretty_N_go_step by done.
  assert (Hmod : (x `mod` 10 < 10)%N) by (apply N.mod_lt; lia).
  assert (Hdm : Z.of_N x = 10 * Z.of_N (x `div` 10) + Z.of_N (x `mod` 10)).
  { rewrite (N.div_mod x 10) at 1 by lia. lia. }
  destruct (decide (x `div` 10 = 0)%N) as [Hz|Hz].
  - rewrite Hz, pretty.pretty_N_go_0. simpl.
    rewrite digit_of_pretty_N_char by done. f_equal.
    rewrite Hdm, Hz. lia.
  - assert (Hlt : (x `div` 10 < x)%N) by (apply N.div_lt; lia).
    assert (Hpos : (0 < x `div` 10)%N) by lia.
    rewrite (IH _ Hlt _ _ Hpos). simpl.
    rewrite digit_of_pretty_N_char by done. f_equal.
    rewrite Hdm. lia.
Qed.

Lemma string_forall_pretty_N_go P x s :
  (forall d, (d < 10)%N -> P (pretty.pretty_N_char d) = true) ->
  string_forall P s = true ->
  string_forall P (pretty.pretty_N_go x s) = true.
Proof.
  intros HP. revert s. induction (N.lt_wf_0 x) as [x _ IH]. intros s Hs.
  destruct (decide (x = 0)%N) as [->|Hx]; [by rewrite pretty.pretty_N_go_0|].
  rewrite pretty.pretty_N_go_step by lia. apply IH; [apply N.div_lt; lia|].
  simpl. rewrite HP, Hs; [done|]. apply N.mod_lt; lia.
Qed.

Lemma is_digit_pretty_N_char d :
  (d < 10)%N -> is_digit (pretty.pretty_N_char d) = true.
Proof. intros H. unfold is_digit. by rewrite digit_of_pretty_N_char. Qed.

Lemma is_digit_not_space a : is_digit a = true -> PyStr.is_space a = false.
Proof.
  unfold is_digit, PyStr.digit_of, PyStr.is_space.
  destruct (_ && _)%nat eqn:E; [|done]. intros _.
  apply andb_true_iff in E as [E1%Nat.leb_le E2%Nat.leb_le].
  repeat (apply orb_false_iff; split); try apply andb_false_iff;
    rewrite ?Nat.leb_gt, ?Nat.eqb_neq; lia.
Qed.

Lemma is_digit_not_char a c :
  is_digit a = true -> is_digit c = false -> Ascii.eqb a c = false.
Proof.
  intros Ha Hc. apply Ascii.eqb_neq. intros ->. congruence.
Qed.

Lemma rstrip_no_space s :
  string_forall (fun a => negb (PyStr.is_space a)) s = true -> PyStr.rstrip s = s.
Proof.
  induction s as [|a s IH]; simpl; [done|].
  intros [Ha Hs]%andb_true_iff. rewrite IH by done.
  destruct s; [|done]. by apply negb_true_iff in Ha as ->.
Qed.

Lemma strip_no_space s :
  string_forall (fun a => negb (PyStr.is_space a)) s = true -> PyStr.strip s = s.
Proof.
  intros H. unfold PyStr.strip.
  assert (PyStr.lstrip s = s) as ->; [|by apply rstrip_no_space].
  destruct s as [|a s]; simpl in *; [done|].
  apply andb_true_iff in H as [Ha _]. by apply negb_true_iff in Ha as ->.
Qed.

Lemma string_forall_impl (P Q : ascii -> bool) s :
  (forall a, P a = true -> Q a = true) ->
  string_forall P s = true -> string_forall Q s = true.
Proof.
  intros H. induction s as [|a s IH]; simpl; [done|].
  intros [Ha Hs]%andb_true_iff. by rewrite (H a Ha), IH.
Qed.

Lemma contains_digits c s :
  is_digit c = false -> string_forall is_digit s = true ->
  PyStr.contains c s = false.
Proof.
  intros Hc. induction s as [|a s IH]; simpl; [done|].
  intros [Ha Hs]%andb_true_iff. by rewrite (is_digit_not_char a c), IH.
Qed.

(** The decimal numeral of a positive number: digits only, read back by
    [digits] as the number. *)
Lemma pretty_positive_digits (p : positive) :
  let s := pretty.pretty (N.pos p) in
  string_forall is_digit s = true /\
  PyStr.digits 0 false s = Some (Z.pos p).
Proof.
  unfold pretty.pretty, pretty.pretty_N. rewrite decide_False by done. split.
  - apply string_forall_pretty_N_go; [apply is_digit_pretty_N_char|done].
  - by rewrite digits_pretty_N_go.
Qed.

Lemma int_digits s n :
  string_forall is_digit s = true -> PyStr.digits 0 false s = Some n ->
  PyStr.int s = Some n.
Proof.
  intros Hd Hn. unfold PyStr.int. rewrite strip_no_space.
  - destruct s as [|a s]; [done|].
    simpl in Hd. apply andb_true_iff in Hd as [Ha _].
    by rewrite !(is_digit_not_char a) by done.
  - eapply string_forall_impl; [|done]. intros a Ha.
    by rewrite is_digit_not_space.
Qed.

Lemma int_of_Z n : PyStr.int (PyStr.of_Z n) = Some n.
Proof.
  unfold PyStr.of_Z, pretty.pretty, pretty.pretty_Z. destruct n as [|p|p].
  - reflexivity.
  - destruct (pretty_positive_digits p) as [Hd Hn]. by apply int_digits.
  - destruct (pretty_positive_digits p) as [Hd Hn].
    unfold pretty.pretty_positive.
    set (s := pretty.pretty (N.pos p)) in *.
    unfold PyStr.int. rewrite strip_no_space.
    + simpl. change (Z.opp <$> PyStr.digits 0 false s = Some (Z.neg p)).
      by rewrite Hn.
    + simpl. eapply string_forall_impl; [|done]. intros a Ha.
      by rewrite is_digit_not_space.
Qed.

Lemma contains_dot_of_Z n : PyStr.contains "." (PyStr.of_Z n) = false.
Proof.
  unfold PyStr.of_Z, pretty.pretty, pretty.pretty_Z. destruct n as [|p|p].
  - reflexivity.
  - destruct (pretty_positive_digits p) as [Hd _]. by apply contains_digits.
  - destruct (pretty_positive_digits p) as [Hd _]. simpl.
    by apply contains_digits.
Qed.

Lemma of_Z_not_empty n : String.eqb (PyStr.of_Z n) "" = false.
Proof.
  apply String.eqb_neq. intros H. pose proof (int_of_Z n) as Hn.
  by rewrite H in Hn.
Qed.

(** Looking up the numeral of [n] finds the first task with id [n]. *)
Lemma lookup_result_of_Z ts n :
  lookup_result ts (PyStr.of_Z n) =
    match list_find (fun t => task_id t = n) ts with
    | Some (i, t) => Some (ItemTask i t)
    | None => None
    end.
Proof.
  unfold lookup_result, get_task_by_id.
  rewrite of_Z_not_empty, contains_dot_of_Z. run. rewrite int_of_Z. run.
  by destruct (list_find _ ts) as [[??]|].
Qed.

(** ** The scheduler *)

Lemma elem_of_completed_ids_of ts n :
  n ∈ completed_ids_of ts <->
  exists t, t ∈ ts /\ task_id t = n /\ task_status t = "done".
Proof.
  unfold completed_ids_of.
  assert (forall acc : gset Z,
    n ∈ foldl (fun acc t => if String.eqb (task_status t) "done"
                            then acc ∪ {[ task_id t ]} else acc) acc ts <->
    n ∈ acc \/ exists t, t ∈ ts /\ task_id t = n /\ task_status t = "done") as H.
  { induction ts as [|t ts IH]; intros acc; simpl.
    - split; [by left|]. intros [?|(t & Ht & _)]; [done|].
      by apply elem_of_nil in Ht.
    - rewrite IH. destruct (String.eqb (task_status t) "done") eqn:E.
      + apply String.eqb_eq in E. rewrite elem_of_union, elem_of_singleton.
        split.
        * intros [[?| ->]|(t' & Ht' & ?)]; [by left| |].
          -- right. exists t. split; [apply elem_of_cons; by left|done].
          -- right. exists t'. split; [apply elem_of_cons; by right|done].
        * intros [?|(t' & [ -> |Ht']%elem_of_cons & Hid & Hs)].
          -- by left; left.
          -- by left; right.
          -- right. by exists t'.
      + apply String.eqb_neq in E. split.
        * intros [?|(t' & Ht' & ?)]; [by left|].
          right. exists t'. split; [apply elem_of_cons; by right|done].
        * intros [?|(t' & [ -> |Ht']%elem_of_cons & Hid & Hs)];
            [by left|done|]. right. by exists t'. }
  rewrite H. split; [|by right]. intros [Hn|?]; [|done].
  by apply not_elem_of_empty in Hn.
Qed.

Lemma deps_met_eq deps w :
  deps_met (completed_ids_of (tasks w)) deps w
  = (Return (forallb (dep_satisfied (tasks w)) deps), w).
Proof.
  induction deps as [|[n|s] deps IH]; simpl; [done|..].
  - destruct (bool_decide _); [done|done].
  - destruct (PyStr.contains "." s); simpl; [|done]. run.
    rewrite get_task_by_id_eq. simpl.
    destruct (lookup_result (tasks w) s) as [it|]; [|done].
    by destruct (String.eqb (item_status it) "done").
Qed.

Lemma collect_eligible_eq i ts w :
  collect_eligible (completed_ids_of (tasks w)) i ts w
  = (Return (filter (fun p => eligible (tasks w) p.2 = true)
                    (enumerate_from i ts)), w).
Proof.
  revert i. induction ts as [|t ts IH]; intros i; simpl; [done|].
  unfold eligible at 1. simpl.
  destruct (String.eqb (task_status t) "done") eqn:Hd; simpl.
  - rewrite IH. by rewrite filter_cons_False by (unfold eligible; simpl; by rewrite Hd).
  - run. rewrite deps_met_eq. simpl. rewrite IH. simpl.
    destruct (_ && _) eqn:E.
    + by rewrite filter_cons_True by (unfold eligible; simpl; by rewrite Hd, E).
    + by rewrite filter_cons_False by (unfold eligible; simpl; rewrite Hd, E; done).
Qed.

Lemma find_next_task_eq w :
  find_next_task w
  = (Return (head (sort_eligible
                     (filter (fun p => eligible (tasks w) p.2 = true)
                             (enumerate_from 0 (tasks w))))), w).
Proof.
  unfold find_next_task. run. rewrite collect_eligible_eq. simpl.
  destruct (filter _ _) as [|x l]; simpl; [|done].
  by destruct (forallb _ _).
Qed.

Lemma elem_of_enumerate_from i ts k t :
  (k, t) ∈ enumerate_from i ts <-> (i <= k)%nat /\ ts !! (k - i)%nat = Some t.
Proof.
  revert i. induction ts as [|a ts IH]; intros i; simpl.
  - rewrite elem_of_nil. split; [done|by intros [_ ?]].
  - rewrite elem_of_cons, IH. split.
    + intros [[= -> ->]|[Hle Hl]].
      * split; [lia|]. by rewrite Nat.sub_diag.
      * split; [lia|]. by replace (k - i)%nat with (S (k - S i)) by lia.
    + intros [Hle Hl]. destruct (decide (k = i)) as [->|Hne].
      * left. rewrite Nat.sub_diag in Hl. simpl in Hl. congruence.
      * right. split; [lia|].
        by replace (k - i)%nat with (S (k - S i)) in Hl by lia.
Qed.

Lemma key_le_goes_before t t' :
  key_le (sort_key t) (sort_key t') = true <-> goes_before t t'.
Proof.
  unfold key_le, sort_key, goes_before. simpl.
  rewrite orb_true_iff, andb_true_iff, Z.ltb_lt, Z.eqb_eq, Z.leb_le. lia.
Qed.

Lemma goes_before_total t t' : goes_before t t' \/ goes_before t' t.
Proof. unfold goes_before. lia. Qed.

Lemma goes_before_trans t1 t2 t3 :
  goes_before t1 t2 -> goes_before t2 t3 -> goes_before t1 t3.
Proof. unfold goes_before. lia. Qed.

Lemma head_insert_sorted x l :
  head (insert_sorted x l) =
    match l with
    | [] => Some x
    | y :: _ => if key_le (sort_key x.2) (sort_key y.2) then Some x else Some y
    end.
Proof. destruct l as [|y l]; simpl; [done|]. by destruct (key_le _ _). Qed.

Lemma elem_of_insert_sorted x l y :
  y ∈ insert_sorted x l <-> y = x \/ y ∈ l.
Proof.
  induction l as [|z l IH]; simpl.
  - rewrite list_elem_of_singleton, elem_of_nil. tauto.
  - destruct (key_le _ _); rewrite !elem_of_cons; [done|].
    rewrite IH. tauto.
Qed.

Lemma elem_of_sort_eligible l y : y ∈ sort_eligible l <-> y ∈ l.
Proof.
  induction l as [|x l IH]; simpl; [done|].
  rewrite elem_of_insert_sorted, elem_of_cons, IH. tauto.
Qed.

(** The head of the sorted list is an element that goes before all. *)
Lemma head_sort_eligible l :
  l <> [] ->
  exists x, head (sort_eligible l) = Some x /\ x ∈ l /\
            forall y, y ∈ l -> goes_before x.2 y.2.
Proof.
  induction l as [|x l IH]; [done|]. intros _. simpl.
  rewrite head_insert_sorted.
  destruct l as [|x' l'].
  - simpl. exists x. split; [done|]. split; [apply elem_of_cons; by left|].
    intros y ->%list_elem_of_singleton. unfold goes_before. lia.
  - destruct IH as (m & Hm & Hin & Hmin); [done|].
    destruct (sort_eligible (x' :: l')) as [|y s] eqn:E; [done|].
    simpl in Hm. injection Hm as ->.
    destruct (key_le _ _) eqn:Hk.
    + apply key_le_goes_before in Hk. exists x. split; [done|].
      split; [apply elem_of_cons; by left|].
      intros z [->|Hz]%elem_of_cons; [unfold goes_before; lia|].
      eapply goes_before_trans; [done|by apply Hmin].
    + assert (goes_before m.2 x.2) as Hmx.
      { destruct (goes_before_total m.2 x.2) as [?|H]; [done|].
        apply key_le_goes_before in H. congruence. }
      exists m. split; [done|]. split; [apply elem_of_cons; by right|].
      intros z [->|Hz]%elem_of_cons; [done|by apply Hmin].
Qed.

(** With an eligible task in the collection, [find_next_task] returns one
    that goes before every eligible task. *)
Lemma find_next_task_best w :
  (exists t, t ∈ tasks w /\ eligible (tasks w) t = true) ->
  exists i t,
    find_next_task w = (Return (Some (i, t)), w) /\
    tasks w !! i = Some t /\ eligible (tasks w) t = true /\
    forall t', t' ∈ tasks w -> eligible (tasks w) t' = true -> goes_before t t'.
Proof.
  intros (t0 & Hin0 & He0). rewrite find_next_task_eq.
  set (l := filter (fun p => eligible (tasks w) p.2 = true)
                   (enumerate_from 0 (tasks w))).
  assert (Hl : forall k t, (k, t) ∈ l <->
                 tasks w !! k = Some t /\ eligible (tasks w) t = true).
  { intros k t. subst l. rewrite list_elem_of_filter, elem_of_enumerate_from.
    simpl. rewrite Nat.sub_0_r. split; [by intros [? [_ ?]]|].
    intros [??]. split; [done|]. split; [lia|done]. }
  destruct (head_sort_eligible l) as ([i t] & Hhd & Hin & Hmin).
  { apply list_elem_of_lookup in Hin0 as [k Hk].
    assert ((k, t0) ∈ l) as H by by apply Hl.
    intros E. rewrite E in H. by apply elem_of_nil in H. }
  exists i, t. rewrite Hhd. apply Hl in Hin as [Hi He].
  split; [done|]. split; [done|]. split; [done|].
  intros t' Hin' He'. apply list_elem_of_lookup in Hin' as [k Hk].
  apply (Hmin (k, t')). by apply Hl.
Qed.

(** C4: on a collection with an eligible task, [find_next_task] returns
    an eligible task of the collection that goes before every eligible
    task: none has a higher priority rank (high 3, medium 2, low 1), and
    those of the same rank have no smaller id.  In particular, for the
    tasks A (done), B (medium, depends on A) and C (high, depends on A),
    whatever their ids, it returns C. *)
Theorem find_next_task_selects (w : World) :
  (exists t, t ∈ tasks w /\ eligible (tasks w) t = true) ->
  (exists i t,
     find_next_task w = (Return (Some (i, t)), w) /\
     tasks w !! i = Some t /\ eligible (tasks w) t = true /\
     forall t', t' ∈ tasks w -> eligible (tasks w) t' = true ->
                goes_before t t') /\
  (forall a b c h,
     find_next_task (mkWorld [task_A a; task_B a b; task_C a c] h)
     = (Return (Some (2%nat, task_C a c)),
        mkWorld [task_A a; task_B a b; task_C a c] h)).
Proof.
  intros Hex. split; [by apply find_next_task_best|].
  intros a b c h.
  set (ts := [task_A a; task_B a b; task_C a c]).
  assert (HC : eligible ts (task_C a c) = true).
  { unfold eligible. simpl. rewrite !andb_true_r.
    apply bool_decide_eq_true, elem_of_completed_ids_of.
    exists (task_A a). split; [apply elem_of_cons; by left|done]. }
  destruct (find_next_task_best (mkWorld ts h)) as (i & t & Hr & Hi & He & Hmin).
  { exists (task_C a c). split; [|done]. simpl.
    do 2 (apply elem_of_cons; right). apply elem_of_cons. by left. }
  rewrite Hr. simpl in *.
  specialize (Hmin (task_C a c)).
  assert (Hgb : goes_before t (task_C a c)).
  { apply Hmin; [|done]. do 2 (apply elem_of_cons; right).
    apply elem_of_cons. by left. }
  destruct i as [|[|[|i]]]; simpl in Hi; try done; injection Hi as <-.
  - by unfold eligible in He.
  - unfold goes_before in Hgb. simpl in Hgb. vm_compute in Hgb.
    destruct Hgb as [?|[? _]]; done.
  - done.
Qed.

Lemma find_next_task_selects_witness :
  exists i t,
    find_next_task sample_world = (Return (Some (i, t)), sample_world) /\
    tasks sample_world !! i = Some t /\
    eligible (tasks sample_world) t = true /\
    forall t', t' ∈ tasks sample_world ->
               eligible (tasks sample_world) t' = true -> goes_before t t'.
Proof.
  apply (find_next_task_selects sample_world).
  exists (mkTask 2 "Task 2" None None None "pending" "medium" [DepInt 1] []).
  split.
  - apply elem_of_cons. right. apply elem_of_cons. by left.
  - vm_compute. reflexivity.
Defined.

Lemma dep_satisfied_resolves ts d :
  dep_satisfied ts d = true -> ~ dangling ts d /\ ~ unrecognized d.
Proof.
  destruct d as [n|s]; simpl.
  - intros Hn%bool_decide_eq_true. split; [|tauto].
    apply elem_of_completed_ids_of in Hn as (t & Hin & Hid & _).
    unfold dangling. simpl. rewrite lookup_result_of_Z.
    destruct (list_find _ ts) as [[i t']|] eqn:Hf; [done|].
    apply list_find_None in Hf. rewrite Forall_forall in Hf.
    by destruct (Hf t Hin).
  - intros [Hdot Hl]%andb_true_iff. unfold dangling. simpl.
    destruct (lookup_result ts s) as [[i t|i j st]|] eqn:Hres; [| |done].
    + apply lookup_result_task in Hres as [Hc _]. congruence.
    + split; [done|].
      apply lookup_result_subtask in Hres
        as (p0 & p1 & n & k & t & Hs & H0 & H1 & _).
      unfold subtask_shape. by rewrite Hs, H0, H1.
Qed.

(** C5: a task that declares a dependency reference which resolves to no
    task and no subtask of the collection, or which is neither an integer
    nor a string in the shape "parentId.subId", is not the task that
    [find_next_task] returns. *)
Theorem find_next_task_skips_unresolved (w : World) (t : Task)
    (d : Dependency) :
  d ∈ task_dependencies t ->
  dangling (tasks w) d \/ unrecognized d ->
  forall i, (find_next_task w).1 <> Return (Some (i, t)).
Proof.
  intros Hd Hbad i Hr. rewrite find_next_task_eq in Hr. simpl in Hr.
  injection Hr as Hr. apply head_Some_elem_of in Hr.
  apply elem_of_sort_eligible, list_elem_of_filter in Hr as [He _].
  simpl in He. unfold eligible in He.
  apply andb_true_iff in He as [_ [Hdeps _]%andb_true_iff].
  rewrite forallb_forall in Hdeps.
  apply list_elem_of_In in Hd. specialize (Hdeps d Hd).
  apply dep_satisfied_resolves in Hdeps as [H1 H2]. tauto.
Qed.

Lemma find_next_task_skips_unresolved_witness :
  (find_next_task (mkWorld dangling_tasks [])).1
  <> Return (Some (0%nat, dangling_task)).
Proof.
  apply (find_next_task_skips_unresolved (mkWorld dangling_tasks [])
           dangling_task (DepInt 99)).
  - apply elem_of_cons. by left.
  - left. vm_compute. reflexivity.
Defined.

(** ** Cycle detection *)

Example find_circular_dependencies_examples :
  find_circular_dependencies [] = NoCycle /\
  find_circular_dependencies dangling_tasks = NoCycle /\
  find_circular_dependencies cyclic_tasks = CycleFound ["1"; "2.1"; "3"; "1"] /\
  find_circular_dependencies sample_tasks_list = NoCycle.
Proof. repeat split; vm_compute; reflexivity. Qed.

Section traversal.
Variable graph : gmap string (list string).
Variable nodes : gset string.
Hypothesis targets_are_nodes :
  forall a nbs b, graph !! a = Some nbs -> b ∈ nbs -> b ∈ nodes.

Lemma neighbours_edge node nb :
  nb ∈ default [] (graph !! node) -> graph_edge graph node nb.
Proof.
  destruct (graph !! node) as [nbs|] eqn:Hg; simpl.
  - intros H. by exists nbs.
  - by intros ?%elem_of_nil.
Qed.

(** *** No cycle is reported where there is none *)

Lemma visit_neighbours_no_cycle rec path nbs visited :
  (forall nb, nb ∈ nbs -> nb ∉ path) ->
  (forall nb v p, nb ∈ nbs -> rec nb v <> Cycle p) ->
  forall p, visit_neighbours rec path nbs visited <> Cycle p.
Proof.
  revert visited. induction nbs as [|nb nbs IH]; intros visited Hpath Hrec p;
    simpl; [done|].
  assert (Hnb : nb ∈ nb :: nbs) by (apply elem_of_cons; by left).
  rewrite bool_decide_eq_false_2 by by apply Hpath.
  assert (forall v, visit_neighbours rec path nbs v <> Cycle p) as Hrest.
  { intros v. apply IH.
    - intros x Hx. apply Hpath, elem_of_cons. by right.
    - intros x v' p' Hx. apply Hrec, elem_of_cons. by right. }
  destruct (bool_decide (nb ∈ visited)); [apply Hrest|].
  pose proof (Hrec nb visited) as Hr.
  destruct (rec nb visited) as [p'|v'|]; [by apply Hr|apply Hrest|done].
Qed.

Lemma dfs_no_cycle fuel node visited path :
  (forall x, ~ tc (graph_edge graph) x x) ->
  (forall x, x ∈ path ++ [node] -> rtc (graph_edge graph) x node) ->
  forall p, dfs fuel graph node visited path <> Cycle p.
Proof.
  intros Hacyclic. revert node visited path.
  induction fuel as [|fuel IH]; intros node visited path Hreach p; simpl;
    [done|].
  pose proof (visit_neighbours_no_cycle
                (fun nb v => dfs fuel graph nb v (path ++ [node]))
                (path ++ [node]) (default [] (graph !! node)) visited) as H.
  destruct (visit_neighbours _ _ _ _) as [p'|v'|] eqn:Hv; [|done|done].
  exfalso. eapply H; [| |done].
  - intros nb Hnb%neighbours_edge Hin. apply (Hacyclic nb).
    eapply tc_rtc_l; [by apply Hreach|by apply tc_once].
  - intros nb v p0 Hnb%neighbours_edge. apply IH.
    intros x [Hx| ->%list_elem_of_singleton]%elem_of_app; [|done].
    eapply rtc_r; [by apply Hreach|done].
Qed.

Lemma visit_roots_no_cycle fuel roots visited :
  (forall x, ~ tc (graph_edge graph) x x) ->
  forall p, visit_roots fuel graph roots visited <> Cycle p.
Proof.
  intros Hacyclic. revert visited.
  induction roots as [|r roots IH]; intros visited p; simpl; [done|].
  destruct (bool_decide (r ∈ visited)); [apply IH|].
  pose proof (dfs_no_cycle fuel r visited [] Hacyclic) as H.
  destruct (dfs fuel graph r visited []) as [p'|v'|]; [|apply IH|done].
  exfalso. eapply H; [|done].
  by intros x ->%list_elem_of_singleton.
Qed.

(** *** The fuel suffices *)

Lemma visit_neighbours_fuel rec path nbs visited :
  (forall b, b ∈ nbs -> b ∈ nodes) ->
  (forall nb v, nb ∈ nodes -> nb ∉ v -> nb ∉ path -> visited ⊆ v ->
     rec nb v <> OutOfFuel /\ forall v', rec nb v = Finished v' -> v ⊆ v') ->
  visit_neighbours rec path nbs visited <> OutOfFuel /\
  forall v', visit_neighbours rec path nbs visited = Finished v' ->
             visited ⊆ v'.
Proof.
  revert visited. induction nbs as [|nb nbs IH]; intros visited Hn Hrec;
    simpl.
  { split; [done|]. by intros v' [= <-]. }
  assert (Hrest : forall v, visited ⊆ v ->
            visit_neighbours rec path nbs v <> OutOfFuel /\
            forall v', visit_neighbours rec path nbs v = Finished v' ->
                       visited ⊆ v').
  { intros v Hv. destruct (IH v) as [H1 H2].
    - intros b Hb. apply Hn, elem_of_cons. by right.
    - intros x v0 ? ? ? Hsub. apply Hrec; try done. by trans v.
    - split; [done|]. intros v' Hv'. trans v; [done|by apply H2]. }
  destruct (bool_decide (nb ∈ path)) eqn:Hp; [done|].
  apply bool_decide_eq_false in Hp.
  destruct (bool_decide (nb ∈ visited)) eqn:Hvis; [by apply Hrest|].
  apply bool_decide_eq_false in Hvis.
  destruct (Hrec nb visited) as [H1 H2]; try done.
  { apply Hn, elem_of_cons. by left. }
  destruct (rec nb visited) as [p'|v1|]; [done| |done].
  apply Hrest. by apply H2.
Qed.

Lemma unexplored_shrinks visited path node v :
  node ∈ nodes -> node ∉ visited -> node ∉ path -> visited ⊆ v ->
  (size (unexplored nodes v (path ++ [node])) < size (unexplored nodes visited path))%nat.
Proof.
  intros Hn Hv Hp Hsub. apply subset_size. unfold unexplored. split.
  - intros x. rewrite !elem_of_difference, !elem_of_union,
      !elem_of_list_to_set, elem_of_app. intros [Hx Hnot]. split; [done|].
    intros [?|?]; apply Hnot; [left; by apply Hsub|right; by left].
  - intros H. specialize (H node).
    rewrite !elem_of_difference, !elem_of_union, !elem_of_list_to_set,
      elem_of_app, list_elem_of_singleton in H.
    destruct H as [_ H]; [|apply H; right; by right].
    split; [done|]. by intros [?|?].
Qed.

Lemma dfs_fuel fuel node visited path :
  node ∈ nodes -> node ∉ visited -> node ∉ path ->
  (size (unexplored nodes visited path) <= fuel)%nat ->
  dfs fuel graph node visited path <> OutOfFuel /\
  forall v', dfs fuel graph node visited path = Finished v' -> visited ⊆ v'.
Proof.
  revert node visited path.
  induction fuel as [|fuel IH]; intros node visited path Hn Hv Hp Hsize.
  { exfalso.
    assert (node ∈ unexplored nodes visited path) as Hin.
    { unfold unexplored. rewrite elem_of_difference, elem_of_union,
        elem_of_list_to_set. split; [done|]. by intros [?|?]. }
    assert (size (unexplored nodes visited path) = 0)%nat as H0 by lia.
    apply size_empty_inv in H0. by apply H0 in Hin. }
  simpl.
  destruct (visit_neighbours_fuel
              (fun nb v => dfs fuel graph nb v (path ++ [node]))
              (path ++ [node]) (default [] (graph !! node)) visited)
    as [H1 H2].
  - intros b Hb. destruct (graph !! node) as [nbs|] eqn:Hg; simpl in Hb.
    + by eapply targets_are_nodes.
    + by apply elem_of_nil in Hb.
  - intros nb v Hnb Hnv Hnp Hsub. apply IH; try done.
    pose proof (unexplored_shrinks visited path node v Hn Hv Hp Hsub). lia.
  - destruct (visit_neighbours _ _ _ _) as [p'|v1|]; [done| |done].
    split; [done|]. intros v' [= <-].
    trans v1; [by apply H2|]. apply union_subseteq_r.
Qed.

Lemma visit_roots_fuel fuel roots visited :
  (forall r, r ∈ roots -> r ∈ nodes) ->
  (size nodes <= fuel)%nat ->
  visit_roots fuel graph roots visited <> OutOfFuel.
Proof.
  intros Hroots Hfuel. revert visited.
  induction roots as [|r roots IH]; intros visited; simpl; [done|].
  assert (forall v, visit_roots fuel graph roots v <> OutOfFuel) as Hrest.
  { intros v. apply IH. intros x Hx. apply Hroots, elem_of_cons. by right. }
  destruct (bool_decide (r ∈ visited)) eqn:Hvis; [apply Hrest|].
  apply bool_decide_eq_false in Hvis.
  destruct (dfs_fuel fuel r visited []) as [H1 _]; try done.
  - apply Hroots, elem_of_cons. by left.
  - apply not_elem_of_nil.
  - etrans; [|done]. apply subseteq_size. unfold unexplored.
    apply subseteq_difference_l. done.
  - destruct (dfs fuel graph r visited []) as [p'|v1|]; [done|apply Hrest|done].
Qed.
End traversal.

Lemma foldl_insert_lookup (f : list Dependency -> list string)
    (l : list (string * list Dependency)) (g : gmap string (list string))
    (a : string) (nbs : list string) :
  foldl (fun g nd => <[nd.1 := f nd.2]> g) g l !! a = Some nbs ->
  g !! a = Some nbs \/ exists deps, (a, deps) ∈ l /\ nbs = f deps.
Proof.
  revert g. induction l as [|[lbl deps] l IH]; intros g; simpl; [by left|].
  intros [H|(deps' & Hin & ->)]%IH.
  - destruct (decide (lbl = a)) as [->|Hne].
    + rewrite lookup_insert_eq in H. injection H as <-.
      right. exists deps. split; [apply elem_of_cons; by left|done].
    + rewrite lookup_insert_ne in H by done. by left.
  - right. exists deps'. split; [apply elem_of_cons; by right|done].
Qed.

Lemma build_graph_edge ts a b :
  graph_edge (build_graph ts) a b -> dep_edge ts a b.
Proof.
  intros (nbs & Hg & Hb). unfold build_graph in Hg.
  apply foldl_insert_lookup in Hg as [Hg|(deps & Hin & ->)].
  { by rewrite lookup_empty in Hg. }
  unfold existing_targets in Hb.
  apply list_elem_of_filter in Hb as [Hlabel Hb].
  apply list_elem_of_fmap in Hb as (d & -> & Hd).
  exists deps, d. by rewrite elem_of_list_to_set in Hlabel.
Qed.

Lemma tc_mono {A} (R1 R2 : relation A) x y :
  (forall a b, R1 a b -> R2 a b) -> tc R1 x y -> tc R2 x y.
Proof.
  intros H. induction 1 as [x y Hxy|x y z Hxy _ IH].
  - by apply tc_once, H.
  - eapply tc_l; [by apply H|done].
Qed.

(** The traversal ends within its fuel, on every collection. *)
Lemma find_circular_dependencies_total ts :
  find_circular_dependencies ts <> FuelExhausted.
Proof.
  unfold find_circular_dependencies.
  pose proof (visit_roots_fuel (build_graph ts) (list_to_set (node_labels ts))) as H.
  destruct (visit_roots _ _ _ _) eqn:E; [done|done|].
  exfalso. eapply H; [| |done|exact E].
  - intros a nbs b Hg Hb.
    assert (dep_edge ts a b) as (? & ? & _ & _ & _ & Hl).
    { apply build_graph_edge. by exists nbs. }
    by apply elem_of_list_to_set.
  - intros r Hr. by apply elem_of_list_to_set.
Qed.

Lemma acyclic_no_cycle_found ts p :
  acyclic ts -> find_circular_dependencies ts <> CycleFound p.
Proof.
  intros Hacyclic. unfold find_circular_dependencies.
  destruct (visit_roots _ _ _ _) as [p'|v|] eqn:E; [|done|done].
  exfalso. eapply (visit_roots_no_cycle (build_graph ts)); [|exact E].
  intros x Hx. apply (Hacyclic x).
  eapply tc_mono; [|done]. apply build_graph_edge.
Qed.

Lemma all_dangling_acyclic ts : all_dangling ts -> acyclic ts.
Proof.
  intros Hd x Hx.
  assert (exists y, dep_edge ts x y) as (y & deps & d & Hin & Hdin & <- & Hl).
  { inversion Hx; by eexists. }
  by eapply Hd.
Qed.

(** C9: on a collection whose dependency graph, with the tasks and
    subtasks as nodes and an edge for each declared reference whose target
    is a node, has no cycle, [find_circular_dependencies] returns none; so
    it does on the empty collection, and on a collection all of whose
    references are to entities that do not exist. *)
Theorem find_circular_dependencies_acyclic (ts : list Task) :
  (acyclic ts -> find_circular_dependencies ts = NoCycle) /\
  find_circular_dependencies [] = NoCycle /\
  (all_dangling ts -> find_circular_dependencies ts = NoCycle).
Proof.
  assert (forall ts', acyclic ts' -> find_circular_dependencies ts' = NoCycle)
    as H.
  { intros ts' Hacyclic.
    pose proof (find_circular_dependencies_total ts') as Ht.
    pose proof (fun p => acyclic_no_cycle_found ts' p Hacyclic) as Hc.
    destruct (find_circular_dependencies ts') as [p| |]; [by destruct (Hc p)|done|done]. }
  split; [apply H|]. split; [done|].
  intros Hd. by apply H, all_dangling_acyclic.
Qed.

Lemma find_circular_dependencies_acyclic_witness :
  find_circular_dependencies dangling_tasks = NoCycle.
Proof.
  apply (proj1 (find_circular_dependencies_acyclic dangling_tasks)).
  intros x Hx.
  assert (exists y, dep_edge dangling_tasks x y)
    as (y & deps & d & Hin & Hdin & <- & Hl).
  { inversion Hx; by eexists. }
  vm_compute in Hin.
  inversion Hin as [|? ? ? Hin']; subst; [|inversion Hin'].
  inversion Hdin as [|? ? ? Hd']; subst; [|inversion Hd'].
  vm_compute in Hl.
  inversion Hl as [|? ? ? Hl']; subst. inversion Hl'.
Defined.

(** ** Lookups by the identifier of an entity *)

Lemma list_find_first {A} (P : A -> Prop) `{!forall x, Decision (P x)}
    (l : list A) (i : nat) (x : A) :
  l !! i = Some x -> P x ->
  (forall j y, (j < i)%nat -> l !! j = Some y -> ~ P y) ->
  list_find P l = Some (i, x).
Proof. intros Hi Hx Hfirst. apply list_find_Some. eauto. Qed.

Lemma split_composite_id n k :
  PyStr.split "." (composite_id n k) = [PyStr.of_Z n; PyStr.of_Z k].
Proof.
  unfold composite_id.
  by rewrite split_app, split_no_sep by apply contains_dot_of_Z.
Qed.

Lemma lookup_result_composite_id ts n k :
  lookup_result ts (composite_id n k) =
    match list_find (fun t => task_id t = n) ts with
    | Some (i, t) =>
        match list_find (fun st => sub_id st = k) (task_subtasks t) with
        | Some (j, st) => Some (ItemSubtask i j st)
        | None => None
        end
    | None => None
    end.
Proof.
  unfold lookup_result, get_task_by_id.
  assert (String.eqb (composite_id n k) "" = false) as ->.
  { unfold composite_id. pose proof (of_Z_not_empty n) as H.
    apply String.eqb_neq in H. apply String.eqb_neq.
    by destruct (PyStr.of_Z n). }
  assert (PyStr.contains "." (composite_id n k) = true) as ->
    by apply contains_app.
  rewrite split_composite_id, !of_Z_not_empty. simpl. run.
  rewrite !int_of_Z. run.
  destruct (list_find _ ts) as [[i t]|]; run; [|done].
  unfold next_subtask.
  destruct (is_nil (task_subtasks t)) eqn:E.
  - by destruct (task_subtasks t).
  - by destruct (list_find _ (task_subtasks t)) as [[??]|].
Qed.

Lemma lookup_finds_task (w : World) (i : nat) (t : Task) :
  tasks w !! i = Some t ->
  first_with_task_id (tasks w) i (task_id t) ->
  get_task_by_id (PyStr.of_Z (task_id t)) w = (Return (Some (ItemTask i t)), w).
Proof.
  intros Hi Hfirst. rewrite get_task_by_id_eq, lookup_result_of_Z.
  by rewrite (list_find_first _ _ i t).
Qed.

(** X1: a task of the collection is found by the text of its id, at its
    position, provided no task in front of it has the same id. *)
Theorem get_task_by_id_finds_task (w : World) (i : nat) (t : Task) :
  tasks w !! i = Some t ->
  first_with_task_id (tasks w) i (task_id t) ->
  get_task_by_id (PyStr.of_Z (task_id t)) w = (Return (Some (ItemTask i t)), w).
Proof. apply lookup_finds_task. Qed.

Lemma get_task_by_id_finds_task_witness :
  get_task_by_id "3" sample_world
  = (Return (ItemTask 2 <$> sample_tasks_list !! 2%nat), sample_world).
Proof.
  apply (get_task_by_id_finds_task sample_world 2
           (mkTask 3 "Task 3" None None None "pending" "high" [DepInt 1]
              [ mkSubtask 1 "Sub 3.1" None None "pending" (Some "medium") [] 3;
                mkSubtask 2 "Sub 3.2" None None "pending" (Some "medium")
                  [DepInt 1] 3 ])).
  - reflexivity.
  - intros j t' Hj Ht'. destruct j as [|[|j]]; simpl in Ht'.
    + injection Ht' as <-. simpl. lia.
    + injection Ht' as <-. simpl. lia.
    + lia.
Defined.

Lemma lookup_finds_subtask (w : World) (i j : nat) (t : Task)
    (st : Subtask) :
  tasks w !! i = Some t ->
  task_subtasks t !! j = Some st ->
  first_with_task_id (tasks w) i (task_id t) ->
  first_with_sub_id (task_subtasks t) j (sub_id st) ->
  get_task_by_id (composite_id (task_id t) (sub_id st)) w
  = (Return (Some (ItemSubtask i j st)), w).
Proof.
  intros Hi Hj Ht Hst. rewrite get_task_by_id_eq, lookup_result_composite_id.
  rewrite (list_find_first _ _ i t) by done.
  by rewrite (list_find_first _ _ j st).
Qed.

(** X2: a subtask is found by the identifier "parentId.subId" made of the
    id of the task that owns it and its own id, provided no task in front
    of the owner has the owner's id and no sibling in front of the subtask
    has the subtask's id. *)
Theorem get_task_by_id_finds_subtask (w : World) (i j : nat) (t : Task)
    (st : Subtask) :
  tasks w !! i = Some t ->
  task_subtasks t !! j = Some st ->
  first_with_task_id (tasks w) i (task_id t) ->
  first_with_sub_id (task_subtasks t) j (sub_id st) ->
  get_task_by_id (composite_id (task_id t) (sub_id st)) w
  = (Return (Some (ItemSubtask i j st)), w).
Proof. apply lookup_finds_subtask. Qed.

Lemma get_task_by_id_finds_subtask_witness :
  get_task_by_id "3.2" sample_world
  = (Return (Some (ItemSubtask 2 1
       (mkSubtask 2 "Sub 3.2" None None "pending" (Some "medium")
          [DepInt 1] 3))), sample_world).
Proof.
  apply (get_task_by_id_finds_subtask sample_world 2 1
           (mkTask 3 "Task 3" None None None "pending" "high" [DepInt 1]
              [ mkSubtask 1 "Sub 3.1" None None "pending" (Some "medium") [] 3;
                mkSubtask 2 "Sub 3.2" None None "pending" (Some "medium")
                  [DepInt 1] 3 ])
           (mkSubtask 2 "Sub 3.2" None None "pending" (Some "medium")
              [DepInt 1] 3)).
  - reflexivity.
  - reflexivity.
  - intros j t' Hj Ht'. destruct j as [|[|j]]; simpl in Ht'.
    + injection Ht' as <-. simpl. lia.
    + injection Ht' as <-. simpl. lia.
    + lia.
  - intros j st' Hj Hst'. destruct j as [|j]; simpl in Hst'.
    + injection Hst' as <-. simpl. lia.
    + lia.
Defined.

(** X3: what [get_task_by_id] returns is an entity of the collection, at
    the position it is returned with: a task whose id is the number the
    string denotes and that is the first with this id, or a subtask whose
    owner and own id are the first with the two numbers around the
    separator. *)
Theorem get_task_by_id_sound (w : World) (s : string) (it : Item) :
  (get_task_by_id s w).1 = Return (Some it) ->
  match it with
  | ItemTask i t =>
      tasks w !! i = Some t /\ PyStr.int s = Some (task_id t) /\
      first_with_task_id (tasks w) i (task_id t)
  | ItemSubtask i j st =>
      exists t p0 p1,
        tasks w !! i = Some t /\ task_subtasks t !! j = Some st /\
        PyStr.split "." s = [p0; p1] /\
        PyStr.int p0 = Some (task_id t) /\ PyStr.int p1 = Some (sub_id st) /\
        first_with_task_id (tasks w) i (task_id t) /\
        first_with_sub_id (task_subtasks t) j (sub_id st)
  end.
Proof.
  rewrite get_task_by_id_eq. simpl. intros [= Hres]. destruct it as [i t|i j st].
  - apply lookup_result_task in Hres as (_ & n & Hint & Hf).
    apply list_find_Some in Hf as (Hi & <- & Hfirst).
    split; [done|]. split; [done|]. intros j t' Hj Ht'. by eapply Hfirst.
  - apply lookup_result_subtask in Hres
      as (p0 & p1 & n & k & t & Hs & H0 & H1 & Hf & Hg).
    apply list_find_Some in Hf as (Hi & <- & Hfirst).
    apply list_find_Some in Hg as (Hj & <- & Hfirst').
    exists t, p0, p1. repeat split; try done.
    + intros j' t' ? ?. by eapply Hfirst.
    + intros j' st' ? ?. by eapply Hfirst'.
Qed.

Lemma get_task_by_id_sound_witness :
  exists t p0 p1,
    tasks sample_world !! 2%nat = Some t /\
    task_subtasks t !! 0%nat
      = Some (mkSubtask 1 "Sub 3.1" None None "pending" (Some "medium") [] 3) /\
    PyStr.split "." "3.1" = [p0; p1] /\
    PyStr.int p0 = Some (task_id t) /\ PyStr.int p1 = Some 1 /\
    first_with_task_id (tasks sample_world) 2 (task_id t) /\
    first_with_sub_id (task_subtasks t) 0 1.
Proof.
  apply (get_task_by_id_sound sample_world "3.1"
           (ItemSubtask 2 0
              (mkSubtask 1 "Sub 3.1" None None "pending" (Some "medium") [] 3))).
  reflexivity.
Defined.

(** ** Status updates change statuses only *)

Lemma status_only_ret {A} (a : A) : status_only (ret a).
Proof. by intros w. Qed.

Lemma status_only_raise {A} e : status_only (@raise A e).
Proof. by intros w. Qed.

Lemma status_only_read {A} (m : M A) : read_only m -> status_only m.
Proof. intros H w. by rewrite H. Qed.

Lemma status_only_bind {A B} (m : M A) (k : A -> M B) :
  status_only m -> (forall a, status_only (k a)) -> status_only (m ≫= k).
Proof.
  intros Hm Hk w. unfold mbind, M_bind. specialize (Hm w).
  destruct (m w) as [[a|e] w1]; simpl in *; [|done].
  by rewrite Hk.
Qed.

Lemma status_only_history_append r : status_only (history_append r).
Proof. by intros w. Qed.

Lemma skeleton_alter f i ts :
  (forall t, erase_task (f t) = erase_task t) ->
  skeleton (alter f i ts) = skeleton ts.
Proof.
  intros Hf. unfold skeleton. apply list_eq. intros k.
  rewrite !list_lookup_fmap. destruct (decide (k = i)) as [->|Hne].
  - rewrite list_lookup_alter_eq. destruct (ts !! i); simpl; [|done].
    by rewrite Hf.
  - by rewrite list_lookup_alter_ne.
Qed.

Lemma status_only_alter f i :
  (forall t, erase_task (f t) = erase_task t) ->
  status_only (modify_tasks (alter f i)).
Proof. intros Hf w. run. by apply skeleton_alter. Qed.

Lemma erase_set_task_status s t :
  erase_task (set_task_status_field s t) = erase_task t.
Proof. done. Qed.

Lemma erase_alter_sub_status s j t :
  erase_task (set_task_subtasks
                (alter (set_sub_status s) j (task_subtasks t)) t)
  = erase_task t.
Proof.
  unfold erase_task. simpl. f_equal. unfold set_task_subtasks. simpl. f_equal.
  apply list_eq. intros k. rewrite !list_lookup_fmap.
  destruct (decide (k = j)) as [->|Hne].
  - rewrite list_lookup_alter_eq. by destruct (task_subtasks t !! j).
  - by rewrite list_lookup_alter_ne.
Qed.

Lemma erase_force_done t :
  erase_task (set_task_subtasks (force_done <$> task_subtasks t) t)
  = erase_task t.
Proof.
  unfold erase_task. simpl. f_equal. unfold set_task_subtasks. simpl. f_equal.
  rewrite <- list_fmap_compose. apply list_fmap_ext. intros k st _. simpl.
  unfold force_done. by destruct (String.eqb _ _).
Qed.

Lemma status_only_assign_status it s : status_only (assign_status it s).
Proof.
  destruct it as [i t|i j st]; simpl.
  - apply status_only_bind; [|intros; apply status_only_ret].
    apply status_only_alter, erase_set_task_status.
  - apply status_only_bind; [|intros; apply status_only_ret].
    apply status_only_alter. intros t. apply erase_alter_sub_status.
Qed.

Lemma status_only_set_task_status_rec d s ns :
  status_only (set_task_status_rec d s ns).
Proof.
  revert s ns. induction d as [|d IH]; intros s ns; simpl.
  { apply status_only_raise. }
  destruct (negb _); [apply status_only_ret|].
  apply status_only_bind; [apply status_only_read, read_only_get_task_by_id|].
  intros [it|]; [|apply status_only_ret].
  destruct (String.eqb _ ns); [apply status_only_ret|].
  apply status_only_bind; [apply status_only_assign_status|]. intros it'.
  apply status_only_bind; [apply status_only_history_append|]. intros _.
  destruct it' as [i t|i j st].
  - destruct (_ && _); [|apply status_only_ret].
    apply status_only_bind; [|intros; apply status_only_ret].
    apply status_only_alter. intros t'. apply erase_force_done.
  - destruct (String.eqb _ _); [|apply status_only_ret].
    apply status_only_bind; [apply status_only_read, read_only_next_task|].
    intros [[pi pt]|]; [|apply status_only_ret].
    destruct (negb _); [|apply status_only_ret].
    destruct (_ && _); [|apply status_only_ret].
    apply status_only_bind.
    { apply status_only_alter, erase_set_task_status. }
    intros _. apply status_only_bind; [apply status_only_raise|].
    intros grand. destruct (truthy grand); [|apply status_only_ret].
    apply status_only_bind; [apply IH|intros; apply status_only_ret].
Qed.

(** X4: [set_task_status] changes statuses only, whatever its arguments and
    whether it returns or raises: with the statuses blanked, the tasks
    after the call are the tasks before it, so the ids, titles, priorities
    and dependency lists and the sequences of tasks and of subtasks stay. *)
Theorem set_task_status_keeps_structure (w : World) (s ns : string) :
  skeleton (tasks (set_task_status s ns w).2) = skeleton (tasks w).
Proof. apply status_only_set_task_status_rec. Qed.

(** ** What a status update does *)

(** The call in closed form: its outcome and the world it leaves. *)
Lemma set_task_status_rec_S d s ns w :
  set_task_status_rec (S d) s ns w =
    if negb (bool_decide (ns ∈ Status_args)) then (Return false, w)
    else
      match lookup_result (tasks w) s with
      | None => (Return false, w)
      | Some it =>
          if String.eqb (item_status it) ns then (Return true, w)
          else
            let h1 := task_execution_history w
                      ++ [mkExecRecord s (item_status it) ns true] in
            match it with
            | ItemTask i t =>
                let ts1 := alter (set_task_status_field ns) i (tasks w) in
                if String.eqb ns "done" && negb (is_nil (task_subtasks t))
                then (Return true,
                      mkWorld (alter (fun t => set_task_subtasks
                                 (force_done <$> task_subtasks t) t) i ts1) h1)
                else (Return true, mkWorld ts1 h1)
            | ItemSubtask i j st =>
                let ts1 :=
                  alter (fun t => set_task_subtasks
                           (alter (set_sub_status ns) j (task_subtasks t)) t)
                        i (tasks w) in
                if String.eqb ns "done" then
                  match list_find (fun t => task_id t = sub_parent_task_id st)
                                  ts1 with
                  | Some (pi, pt) =>
                      if negb (is_nil (task_subtasks pt))
                         && (all_done (task_subtasks pt)
                             && negb (String.eqb (task_status pt) "done"))
                      then (Raise AttributeError,
                            mkWorld (alter (set_task_status_field "done") pi ts1)
                                    h1)
                      else (Return true, mkWorld ts1 h1)
                  | None => (Return true, mkWorld ts1 h1)
                  end
                else (Return true, mkWorld ts1 h1)
            end
      end.
Proof.
  simpl. destruct (negb _); [done|]. run. rewrite get_task_by_id_eq. simpl.
  destruct (lookup_result (tasks w) s) as [[i t|i j st]|]; [| |done]; simpl.
  - destruct (String.eqb (task_status t) ns); [done|]. simpl.
    by destruct (_ && _).
  - destruct (String.eqb (sub_status st) ns); [done|]. simpl.
    destruct (String.eqb ns "done"); [|done].
    destruct (list_find _ _) as [[pi pt]|]; simpl; [|done].
    destruct (negb _); simpl; [|done]. unfold all_done.
    by destruct (_ && _).
Qed.

Lemma set_task_status_S s ns w :
  set_task_status s ns w = set_task_status_rec 1 s ns w.
Proof.
  unfold set_task_status, recursion_limit. by rewrite !set_task_status_rec_S.
Qed.

Lemma int_not_empty s n : PyStr.int s = Some n -> String.eqb s "" = false.
Proof. intros H. apply String.eqb_neq. by intros ->. Qed.

Lemma lookup_result_task_intro ts s n i t :
  PyStr.contains "." s = false -> PyStr.int s = Some n ->
  list_find (fun t => task_id t = n) ts = Some (i, t) ->
  lookup_result ts s = Some (ItemTask i t).
Proof.
  intros Hdot Hint Hf. unfold lookup_result, get_task_by_id.
  rewrite (int_not_empty s n Hint), Hdot. run. rewrite Hint. run.
  by rewrite Hf.
Qed.

Lemma lookup_result_subtask_intro ts s p0 p1 n k i t j st :
  PyStr.split "." s = [p0; p1] ->
  PyStr.int p0 = Some n -> PyStr.int p1 = Some k ->
  list_find (fun t => task_id t = n) ts = Some (i, t) ->
  list_find (fun st => sub_id st = k) (task_subtasks t) = Some (j, st) ->
  lookup_result ts s = Some (ItemSubtask i j st).
Proof.
  intros Hs H0 H1 Hf Hg. unfold lookup_result, get_task_by_id.
  assert (PyStr.contains "." s = true) as Hdot.
  { rewrite contains_count. pose proof (split_length "." s) as Hl.
    rewrite Hs in Hl. simpl in Hl. by destruct (count_char "." s). }
  assert (String.eqb s "" = false) as ->.
  { apply String.eqb_neq. by intros ->. }
  rewrite Hdot, Hs, (int_not_empty p0 n H0), (int_not_empty p1 k H1).
  simpl. run. rewrite H0. run. rewrite H1. run. rewrite Hf. simpl.
  unfold next_subtask. rewrite Hg.
  apply list_find_Some in Hg as (Hj & _).
  by destruct (task_subtasks t).
Qed.

(** After an update of the task at the position of a looked-up task that
    keeps its id, the lookup finds the updated task. *)
Lemma lookup_result_alter_task ts s i t f :
  lookup_result ts s = Some (ItemTask i t) ->
  (forall t, task_id (f t) = task_id t) ->
  lookup_result (alter f i ts) s = Some (ItemTask i (f t)).
Proof.
  intros (Hdot & n & Hint & Hf)%lookup_result_task Hid.
  apply (lookup_result_task_intro _ _ n); [done|done|].
  rewrite (list_find_alter _ f ts i i t); [by rewrite decide_True| |done].
  intros y. by rewrite Hid.
Qed.

Lemma lookup_result_alter_subtask ts s i j st g :
  lookup_result ts s = Some (ItemSubtask i j st) ->
  (forall x, sub_id (g x) = sub_id x) ->
  lookup_result
    (alter (fun t => set_task_subtasks (alter g j (task_subtasks t)) t) i ts) s
  = Some (ItemSubtask i j (g st)).
Proof.
  intros (p0 & p1 & n & k & t & Hs & H0 & H1 & Hf & Hg)%lookup_result_subtask
         Hid.
  apply (lookup_result_subtask_intro _ _ p0 p1 n k i
           (set_task_subtasks (alter g j (task_subtasks t)) t)); try done.
  - rewrite (list_find_alter _ _ ts i i t); [by rewrite decide_True| |done].
    by intros y.
  - simpl.
    rewrite (list_find_alter _ g _ j j st); [by rewrite decide_True| |done].
    intros y. by rewrite Hid.
Qed.

Lemma lookup_after_set_task_status (w : World) (s ns : string) :
  (set_task_status s ns w).1 = Return true ->
  exists it,
    get_task_by_id s (set_task_status s ns w).2
      = (Return (Some it), (set_task_status s ns w).2) /\
    item_status it = ns.
Proof.
  rewrite set_task_status_S, set_task_status_rec_S.
  destruct (negb _); [done|].
  destruct (lookup_result (tasks w) s) as [[i t|i j st]|] eqn:Hres; [| |done];
    simpl.
  - destruct (String.eqb (task_status t) ns) eqn:E; simpl.
    { intros _. exists (ItemTask i t). rewrite get_task_by_id_eq, Hres.
      split; [done|]. by apply String.eqb_eq. }
    pose proof (lookup_result_alter_task _ _ _ _ (set_task_status_field ns)
                  Hres (fun _ => eq_refl)) as H1.
    destruct (_ && _); simpl; intros _.
    + eexists. rewrite get_task_by_id_eq. simpl.
      rewrite (lookup_result_alter_task _ _ _ _
                 (fun t => set_task_subtasks (force_done <$> task_subtasks t) t)
                 H1 (fun _ => eq_refl)).
      done.
    + eexists. rewrite get_task_by_id_eq. simpl. by rewrite H1.
  - destruct (String.eqb (sub_status st) ns) eqn:E; simpl.
    { intros _. exists (ItemSubtask i j st). rewrite get_task_by_id_eq, Hres.
      split; [done|]. by apply String.eqb_eq. }
    pose proof (lookup_result_alter_subtask _ _ _ _ _ (set_sub_status ns)
                  Hres (fun _ => eq_refl)) as H1.
    assert (forall h,
      exists it,
        get_task_by_id s
          (mkWorld (alter (fun t => set_task_subtasks
                             (alter (set_sub_status ns) j (task_subtasks t)) t)
                          i (tasks w)) h)
        = (Return (Some it),
           mkWorld (alter (fun t => set_task_subtasks
                             (alter (set_sub_status ns) j (task_subtasks t)) t)
                          i (tasks w)) h)
        /\ item_status it = ns) as Hgoal.
    { intros h. eexists. rewrite get_task_by_id_eq. simpl. by rewrite H1. }
    destruct (String.eqb ns "done"); [|intros _; apply Hgoal].
    destruct (list_find _ _) as [[pi pt]|]; [|intros _; apply Hgoal].
    destruct (_ && _); [done|intros _; apply Hgoal].
Qed.

(** X5: when [set_task_status] returns [True], a lookup of the same
    identifier finds an entity with the new status. *)
Theorem set_task_status_then_get (w : World) (s ns : string) :
  (set_task_status s ns w).1 = Return true ->
  exists it,
    get_task_by_id s (set_task_status s ns w).2
      = (Return (Some it), (set_task_status s ns w).2) /\
    item_status it = ns.
Proof. apply lookup_after_set_task_status. Qed.

(** X6: a second call with the same arguments, after one that returned
    [True], returns [True] and changes nothing: no status and no history
    record. *)
Theorem set_task_status_idempotent (w : World) (s ns : string) :
  (set_task_status s ns w).1 = Return true ->
  set_task_status s ns (set_task_status s ns w).2
  = (Return true, (set_task_status s ns w).2).
Proof.
  intros Hret.
  destruct (lookup_after_set_task_status w s ns Hret) as (it & Hget & Hst).
  assert (Hvalid : ns ∈ Status_args).
  { rewrite set_task_status_S, set_task_status_rec_S in Hret.
    destruct (bool_decide (ns ∈ Status_args)) eqn:E; [|done].
    by apply bool_decide_eq_true in E. }
  set (w' := (set_task_status s ns w).2) in *.
  rewrite set_task_status_S.
  apply (set_task_status_rec_same 0 s ns w' it); [done| |done].
  rewrite get_task_by_id_eq in Hget. by injection Hget.
Qed.

Lemma alter_as_insert {A} (f : A -> A) (l : list A) (i : nat) (x : A) :
  l !! i = Some x -> alter f i l = <[i := f x]> l.
Proof.
  intros Hi. apply list_eq. intros k. destruct (decide (k = i)) as [->|Hne].
  - rewrite list_lookup_alter_eq, Hi. simpl.
    by rewrite list_lookup_insert_eq by by eapply lookup_lt_Some.
  - by rewrite list_lookup_alter_ne, list_lookup_insert_ne by done.
Qed.

Lemma force_done_all sts : Forall sub_done (force_done <$> sts).
Proof.
  apply Forall_fmap, Forall_forall. intros st _. unfold sub_done, force_done.
  simpl. destruct (String.eqb (sub_status st) "done") eqn:E; [|done].
  by apply String.eqb_eq.
Qed.

(** X7: setting a task that is not done to done returns [True], records
    the transition, and leaves the collection with only that task replaced:
    by the same task, done, with every subtask done. *)
Theorem set_task_status_task_done (w : World) (s : string) (i : nat)
    (t : Task) :
  (get_task_by_id s w).1 = Return (Some (ItemTask i t)) ->
  task_status t <> "done" ->
  exists t',
    set_task_status s "done" w
    = (Return true,
       mkWorld (<[i := t']> (tasks w))
               (task_execution_history w
                ++ [mkExecRecord s (task_status t) "done" true])) /\
    task_status t' = "done" /\ Forall sub_done (task_subtasks t') /\
    erase_task t' = erase_task t.
Proof.
  rewrite get_task_by_id_eq. simpl. intros [= Hres] Hst.
  pose proof (lookup_result_task_lookup _ _ _ _ Hres) as Hi.
  rewrite set_task_status_S, set_task_status_rec_S. simpl. rewrite Hres. simpl.
  rewrite (proj2 (String.eqb_neq _ _) Hst).
  destruct (negb (is_nil (task_subtasks t))) eqn:Hnil; simpl.
  - exists (set_task_subtasks (force_done <$> task_subtasks t)
              (set_task_status_field "done" t)).
    split; [|split; [reflexivity|split; [apply force_done_all|]]].
    + rewrite (alter_as_insert (set_task_status_field "done") (tasks w) i t)
        by done.
      rewrite (alter_as_insert _ _ i (set_task_status_field "done" t))
        by (by rewrite list_lookup_insert_eq by by eapply lookup_lt_Some).
      by rewrite list_insert_insert_eq.
    + apply (erase_force_done (set_task_status_field "done" t)).
  - exists (set_task_status_field "done" t).
    split; [|split; [reflexivity|split; [|reflexivity]]].
    + by rewrite (alter_as_insert _ _ i t).
    + simpl. destruct (task_subtasks t); [constructor|done].
Qed.

Lemma set_task_status_task_done_witness :
  exists t',
    set_task_status "3" "done" sample_world
    = (Return true,
       mkWorld (<[2%nat := t']> sample_tasks_list)
               [mkExecRecord "3" "pending" "done" true]) /\
    task_status t' = "done" /\ Forall sub_done (task_subtasks t').
Proof.
  destruct (set_task_status_task_done sample_world "3" 2
              (mkTask 3 "Task 3" None None None "pending" "high" [DepInt 1]
                 [ mkSubtask 1 "Sub 3.1" None None "pending" (Some "medium") [] 3;
                   mkSubtask 2 "Sub 3.2" None None "pending" (Some "medium")
                     [DepInt 1] 3 ]))
    as (t' & H1 & H2 & H3 & _).
  - reflexivity.
  - simpl. discriminate.
  - exists t'. split; [exact H1|]. split; [exact H2|exact H3].
Defined.

(** X8: setting an entity to a valid status other than done, and other
    than the one it has, returns [True], records the transition, and
    changes the status of that entity alone: the task at its position, or
    the subtask at its position within its owner. *)
Theorem set_task_status_single (w : World) (s ns : string) (it : Item) :
  ns ∈ Status_args -> ns <> "done" ->
  (get_task_by_id s w).1 = Return (Some it) ->
  item_status it <> ns ->
  set_task_status s ns w
  = (Return true,
     mkWorld
       match it with
       | ItemTask i t => <[i := set_task_status_field ns t]> (tasks w)
       | ItemSubtask i j st =>
           alter (fun t => set_task_subtasks
                    (<[j := set_sub_status ns st]> (task_subtasks t)) t)
                 i (tasks w)
       end
       (task_execution_history w
        ++ [mkExecRecord s (item_status it) ns true])).
Proof.
  intros Hvalid Hnd. rewrite get_task_by_id_eq. simpl. intros [= Hres] Hst.
  rewrite set_task_status_S, set_task_status_rec_S.
  rewrite bool_decide_eq_true_2 by done. simpl. rewrite Hres.
  rewrite (proj2 (String.eqb_neq _ _) Hst).
  rewrite (proj2 (String.eqb_neq _ _) Hnd). simpl.
  destruct it as [i t|i j st]; simpl.
  - pose proof (lookup_result_task_lookup _ _ _ _ Hres) as Hi.
    by rewrite (alter_as_insert _ _ i t).
  - destruct (lookup_result_subtask_lookup _ _ _ _ _ Hres) as (t & Hi & Hj).
    do 2 f_equal. apply list_alter_ext; [|done]. intros t' Ht'.
    assert (t' = t) as -> by congruence.
    by rewrite (alter_as_insert _ _ j st).
Qed.

Lemma set_task_status_single_witness :
  set_task_status "2" "in-progress" sample_world
  = (Return true,
     mkWorld
       (<[1%nat := set_task_status_field "in-progress"
                     (mkTask 2 "Task 2" None None None "pending" "medium"
                        [DepInt 1] [])]> sample_tasks_list)
       [mkExecRecord "2" "pending" "in-progress" true]).
Proof.
  apply (set_task_status_single sample_world "2" "in-progress"
           (ItemTask 1 (mkTask 2 "Task 2" None None None "pending" "medium"
                          [DepInt 1] []))).
  - apply elem_of_cons. right. apply elem_of_cons. by left.
  - discriminate.
  - reflexivity.
  - simpl. discriminate.
Defined.

(** X9: a call either leaves the world as it was, or appends exactly one
    record to the execution history: the identifier, the status the entity
    had and the new one, for an entity that was found with another status
    than the valid new one. *)
Theorem set_task_status_history (w : World) (s ns : string) :
  (set_task_status s ns w).2 = w \/
  exists it,
    (get_task_by_id s w).1 = Return (Some it) /\
    ns ∈ Status_args /\ item_status it <> ns /\
    task_execution_history (set_task_status s ns w).2
    = task_execution_history w ++ [mkExecRecord s (item_status it) ns true].
Proof.
  rewrite set_task_status_S, set_task_status_rec_S, get_task_by_id_eq.
  destruct (bool_decide (ns ∈ Status_args)) eqn:Hv; simpl; [|by left].
  apply bool_decide_eq_true in Hv.
  destruct (lookup_result (tasks w) s) as [it|]; [|by left].
  destruct (String.eqb (item_status it) ns) eqn:E; [by left|].
  apply String.eqb_neq in E. right. exists it.
  split; [done|]. split; [done|]. split; [done|].
  destruct it as [i t|i j st]; simpl.
  - by destruct (_ && _).
  - destruct (String.eqb ns "done"); [|done].
    destruct (list_find _ _) as [[pi pt]|]; [|done].
    by destruct (_ && _).
Qed.

Lemma set_task_status_then_get_witness :
  exists it,
    get_task_by_id "3.1" (set_task_status "3.1" "review" sample_world).2
    = (Return (Some it), (set_task_status "3.1" "review" sample_world).2) /\
    item_status it = "review".
Proof.
  apply (set_task_status_then_get sample_world "3.1" "review"). reflexivity.
Defined.

Lemma set_task_status_idempotent_witness :
  set_task_status "3" "done" (set_task_status "3" "done" sample_world).2
  = (Return true, (set_task_status "3" "done" sample_world).2).
Proof.
  apply (set_task_status_idempotent sample_world "3" "done"). reflexivity.
Defined.

(** ** Adding, then looking up *)

Lemma lookup_result_app ts l s it :
  lookup_result ts s = Some it -> lookup_result (ts ++ l) s = Some it.
Proof.
  destruct it as [i t|i j st].
  - intros (Hdot & n & Hint & Hf)%lookup_result_task.
    apply (lookup_result_task_intro _ _ n); [done|done|].
    by apply list_find_app_l.
  - intros (p0 & p1 & n & k & t & Hs & H0 & H1 & Hf & Hg)%lookup_result_subtask.
    apply (lookup_result_subtask_intro _ _ p0 p1 n k i t); try done.
    by apply list_find_app_l.
Qed.

(** X10: [add_new_task] returns the new task; the dependencies it stores
    are those of the given ones that resolve in the collection, in the
    given order, and each of them still resolves once the task is added. *)
Theorem add_new_task_dependencies (w : World) (title : string)
    (description : option string) (priority : string)
    (dependencies : list Dependency) :
  let r := add_new_task title description priority dependencies w in
  exists i t,
    r.1 = Return (i, t) /\
    task_dependencies t
    = filter (fun d => is_Some (lookup_result (tasks w) (dep_str d)))
             dependencies /\
    (forall d, d ∈ task_dependencies t <->
               d ∈ dependencies /\ ~ dangling (tasks w) d) /\
    (forall d, d ∈ task_dependencies t -> ~ dangling (tasks r.2) d).
Proof.
  cbv zeta. rewrite add_new_task_eq.
  cbn [fst snd tasks task_dependencies]. eexists _, _.
  split; [done|]. cbn [task_dependencies]. split; [done|]. split.
  - intros d. rewrite list_elem_of_filter. unfold dangling.
    rewrite <- not_eq_None_Some. tauto.
  - intros d [[it Hit] _]%list_elem_of_filter. unfold dangling.
    by rewrite (lookup_result_app _ _ _ it).
Qed.

(** X11: the task that [add_new_task] returns is found, afterwards, by
    the text of its id. *)
Theorem add_new_task_then_get (w : World) (title : string)
    (description : option string) (priority : string)
    (dependencies : list Dependency) :
  let r := add_new_task title description priority dependencies w in
  exists i t,
    r.1 = Return (i, t) /\
    get_task_by_id (PyStr.of_Z (task_id t)) r.2
    = (Return (Some (ItemTask i t)), r.2).
Proof.
  simpl. rewrite add_new_task_eq. simpl. eexists _, _. split; [done|].
  apply lookup_finds_task; simpl.
  - by rewrite lookup_app_r, Nat.sub_diag.
  - intros j t' Hj Ht'. rewrite lookup_app_l in Ht' by done.
    pose proof (max_plus_one_fresh _ _ (next_task_id_spec (tasks w))) as Hfresh.
    intros Heq. apply Hfresh. rewrite <- Heq.
    apply list_elem_of_fmap. exists t'. split; [done|].
    by eapply list_elem_of_lookup_2.
Qed.

(** X12: the subtask that [add_subtask] returns is found, afterwards, by
    the identifier made of the parent id and its own id. *)
Theorem add_subtask_then_get (w : World) (parent_task_id : Z)
    (title : string) (description : option string) (priority : string)
    (dependencies : list Dependency) (it : Item) :
  let r := add_subtask parent_task_id title description priority
                       dependencies w in
  r.1 = Return it ->
  exists i j st,
    it = ItemSubtask i j st /\
    get_task_by_id (composite_id parent_task_id (sub_id st)) r.2
    = (Return (Some it), r.2).
Proof.
  simpl.
  destruct (list_find (fun t => task_id t = parent_task_id) (tasks w))
    as [[i pt]|] eqn:Hf.
  - rewrite (add_subtask_eq _ _ _ _ _ _ i pt Hf). simpl. intros [= <-].
    eexists _, _, _. split; [done|].
    pose proof Hf as (Hi & Hid & Hfirst)%list_find_Some.
    set (st := mkSubtask _ _ _ _ _ _ _ _).
    replace parent_task_id
      with (task_id (set_task_subtasks (task_subtasks pt ++ [st]) pt)) at 1
      by done.
    change (next_sub_id (task_subtasks pt)) with (sub_id st).
    apply lookup_finds_subtask; simpl.
    + by rewrite list_lookup_insert_eq by by eapply lookup_lt_Some.
    + by rewrite lookup_app_r, Nat.sub_diag.
    + intros j t' Hj Ht'. rewrite list_lookup_insert_ne in Ht' by lia.
      rewrite Hid. by eapply Hfirst.
    + intros j st' Hj Hst'. rewrite lookup_app_l in Hst' by done.
      pose proof (max_plus_one_fresh _ _ (next_sub_id_spec (task_subtasks pt)))
        as Hfresh.
      intros Heq. apply Hfresh. rewrite <- Heq.
      apply list_elem_of_fmap. exists st'. split; [done|].
      by eapply list_elem_of_lookup_2.
  - rewrite add_subtask_parent_missing by done. done.
Qed.

Lemma add_subtask_then_get_witness :
  exists i j st,
    (add_subtask 3 "Manual Subtask" (Some "Desc") "low" [DepInt 1]
       sample_world).1 = Return (ItemSubtask i j st) /\
    get_task_by_id "3.3"
      (add_subtask 3 "Manual Subtask" (Some "Desc") "low" [DepInt 1]
         sample_world).2
    = (Return (Some (ItemSubtask i j st)),
       (add_subtask 3 "Manual Subtask" (Some "Desc") "low" [DepInt 1]
          sample_world).2).
Proof.
  destruct (add_subtask_then_get sample_world 3 "Manual Subtask" (Some "Desc")
              "low" [DepInt 1]
              (ItemSubtask 2 2
                 (mkSubtask 3 "Manual Subtask" (Some "Desc") None "pending"
                    (Some "low") [DepInt 1] 3)))
    as (i & j & st & Heq & Hget).
  - reflexivity.
  - exists i, j, st. rewrite <- Heq. split; [reflexivity|].
    injection Heq as <- <- <-. exact Hget.
Defined.

(** ** Removing a subtask *)

Lemma remove_subtask_eq s k w :
  remove_subtask s k w =
    match lookup_result (tasks w) s with
    | None => (Return false, w)
    | Some (ItemSubtask _ _ _) => (Raise AttributeError, w)
    | Some (ItemTask i t) =>
        if is_nil (task_subtasks t) then (Return false, w)
        else
          let kept := filter (fun st => sub_id st <> k) (task_subtasks t) in
          (Return (length kept <? length (task_subtasks t))%nat,
           mkWorld (alter (set_task_subtasks kept) i (tasks w))
                   (task_execution_history w))
    end.
Proof.
  unfold remove_subtask. run. rewrite get_task_by_id_eq. simpl.
  destruct (lookup_result (tasks w) s) as [[i t|i j st]|]; [|done|done].
  simpl. destruct (is_nil (task_subtasks t)); [done|]. simpl.
  by destruct (_ <? _)%nat.
Qed.

Lemma filter_all {A} (P : A -> Prop) `{!forall x, Decision (P x)} (l : list A) :
  Forall P l -> filter P l = l.
Proof.
  induction 1 as [|x l Hx _ IH]; [done|].
  by rewrite filter_cons_True, IH.
Qed.

Lemma filter_length_all {A} (P : A -> Prop) `{!forall x, Decision (P x)}
    (l : list A) :
  ~ (length (filter P l) < length l)%nat -> Forall P l.
Proof.
  intros Hlen. apply Forall_forall. intros x Hx.
  destruct (decide (P x)) as [|Hn]; [done|].
  destruct Hlen. by eapply length_filter_lt.
Qed.

Lemma set_task_subtasks_same t : set_task_subtasks (task_subtasks t) t = t.
Proof. by destruct t. Qed.

(** X13: when [remove_subtask] returns [False] (the identifier resolves to
    nothing, the task has no subtasks, or none with the given id) the
    world is the one from before the call. *)
Theorem remove_subtask_false_unchanged (w : World) (s : string) (k : Z) :
  (remove_subtask s k w).1 = Return false -> (remove_subtask s k w).2 = w.
Proof.
  rewrite remove_subtask_eq.
  destruct (lookup_result (tasks w) s) as [[i t|i j st]|] eqn:Hres;
    [|done|done].
  destruct (is_nil (task_subtasks t)); [done|]. cbv zeta. cbn [fst snd].
  intros [= Hlt]. apply Nat.ltb_nlt in Hlt.
  apply (filter_length_all (fun st => sub_id st <> k)) in Hlt.
  rewrite (filter_all (fun st => sub_id st <> k) (task_subtasks t)) by done.
  rewrite (alter_as_insert _ _ i t)
    by by eapply lookup_result_task_lookup.
  rewrite set_task_subtasks_same, list_insert_id
    by by eapply lookup_result_task_lookup.
  by destruct w.
Qed.

Lemma remove_subtask_false_unchanged_witness :
  (remove_subtask "3" 99 sample_world).2 = sample_world.
Proof.
  apply (remove_subtask_false_unchanged sample_world "3" 99). reflexivity.
Defined.

Lemma remove_subtask_returns_true (w : World) (s : string) (k : Z) :
  (remove_subtask s k w).1 = Return true <->
  exists i t,
    (get_task_by_id s w).1 = Return (Some (ItemTask i t)) /\
    k ∈ sub_id <$> task_subtasks t /\
    (remove_subtask s k w).2
    = mkWorld (<[i := set_task_subtasks
                        (filter (fun st => sub_id st <> k) (task_subtasks t))
                        t]> (tasks w))
              (task_execution_history w).
Proof.
  rewrite remove_subtask_eq, get_task_by_id_eq. simpl. split.
  - destruct (lookup_result (tasks w) s) as [[i t|i j st]|] eqn:Hres;
      [|done|done].
    destruct (is_nil (task_subtasks t)); [done|]. simpl.
    intros [= Hlt%Nat.ltb_lt]. exists i, t. split; [done|]. split.
    + destruct (decide (k ∈ sub_id <$> task_subtasks t)) as [|Hn]; [done|].
      rewrite filter_all in Hlt; [lia|].
      apply Forall_forall. intros st Hst <-. apply Hn.
      by apply list_elem_of_fmap_2.
    + by rewrite (alter_as_insert _ _ i t)
        by by eapply lookup_result_task_lookup.
  - intros (i & t & [= ->] & Hin & _).
    apply list_elem_of_fmap in Hin as (st & -> & Hst).
    destruct (task_subtasks t) as [|st0 sts] eqn:E.
    { by apply elem_of_nil in Hst. }
    simpl. f_equal. apply Nat.ltb_lt.
    change (length (filter (fun st1 => sub_id st1 <> sub_id st) (st0 :: sts))
            < length (st0 :: sts))%nat.
    eapply length_filter_lt; [done|]. by intros H.
Qed.

(** X14: [remove_subtask] returns [True] exactly when the identifier
    resolves to a task that has a subtask with the given id; the world it
    leaves then differs in that task alone, whose subtasks are those with
    another id, in their order. *)
Theorem remove_subtask_true (w : World) (s : string) (k : Z) :
  (remove_subtask s k w).1 = Return true <->
  exists i t,
    (get_task_by_id s w).1 = Return (Some (ItemTask i t)) /\
    k ∈ sub_id <$> task_subtasks t /\
    (remove_subtask s k w).2
    = mkWorld (<[i := set_task_subtasks
                        (filter (fun st => sub_id st <> k) (task_subtasks t))
                        t]> (tasks w))
              (task_execution_history w).
Proof. apply remove_subtask_returns_true. Qed.

(** X15: after [remove_subtask] has returned [True] for a task, the
    identifier made of the id of that task and the removed id resolves to
    nothing. *)
Theorem remove_subtask_then_get (w : World) (s : string) (k : Z) (i : nat)
    (t : Task) :
  (remove_subtask s k w).1 = Return true ->
  (get_task_by_id s w).1 = Return (Some (ItemTask i t)) ->
  get_task_by_id (composite_id (task_id t) k) (remove_subtask s k w).2
  = (Return None, (remove_subtask s k w).2).
Proof.
  intros (i' & t' & Hget & _ & Hw)%remove_subtask_returns_true Hget'.
  assert (i' = i /\ t' = t) as [-> ->] by (split; congruence).
  rewrite Hw, get_task_by_id_eq, lookup_result_composite_id. simpl.
  rewrite get_task_by_id_eq in Hget. simpl in Hget. injection Hget as Hres.
  apply lookup_result_task in Hres as (_ & n & _ & Hf).
  pose proof Hf as (Hi & <- & _)%list_find_Some.
  rewrite <- (alter_as_insert (set_task_subtasks
                (filter (fun st => sub_id st <> k) (task_subtasks t)))) by done.
  rewrite (list_find_alter _ _ _ i i t); [|done|done].
  rewrite decide_True by done. simpl.
  assert (list_find (fun st => sub_id st = k)
            (filter (fun st => sub_id st <> k) (task_subtasks t)) = None) as ->.
  { apply list_find_None, Forall_forall.
    by intros st [? _]%list_elem_of_filter. }
  done.
Qed.

Lemma remove_subtask_then_get_witness :
  get_task_by_id "3.1" (remove_subtask "3" 1 sample_world).2
  = (Return None, (remove_subtask "3" 1 sample_world).2).
Proof.
  apply (remove_subtask_then_get sample_world "3" 1 2
           (mkTask 3 "Task 3" None None None "pending" "high" [DepInt 1]
              [ mkSubtask 1 "Sub 3.1" None None "pending" (Some "medium") [] 3;
                mkSubtask 2 "Sub 3.2" None None "pending" (Some "medium")
                  [DepInt 1] 3 ])); reflexivity.
Defined.

(** X16: called with an identifier that resolves to a subtask,
    [remove_subtask] does not return: the read of [subtasks] on the
    subtask raises [AttributeError]; the world is left as it was. *)
Theorem remove_subtask_on_subtask_raises (w : World) (s : string) (k : Z)
    (i j : nat) (st : Subtask) :
  (get_task_by_id s w).1 = Return (Some (ItemSubtask i j st)) ->
  remove_subtask s k w = (Raise AttributeError, w).
Proof.
  rewrite get_task_by_id_eq, remove_subtask_eq. simpl. by intros [= ->].
Qed.

Lemma remove_subtask_on_subtask_raises_witness :
  remove_subtask "3.1" 1 sample_world = (Raise AttributeError, sample_world).
Proof.
  apply (remove_subtask_on_subtask_raises sample_world "3.1" 1 2 0
           (mkSubtask 1 "Sub 3.1" None None "pending" (Some "medium") [] 3)).
  reflexivity.
Defined.

(** X17: removing, from the parent named by the text of its id, the
    subtask that [add_subtask] has just returned gives [True] and the
    world from before the addition. *)
Theorem add_then_remove_subtask (w : World) (parent_task_id : Z)
    (title : string) (description : option string) (priority : string)
    (dependencies : list Dependency) (i j : nat) (st : Subtask) :
  let r := add_subtask parent_task_id title description priority
                       dependencies w in
  r.1 = Return (ItemSubtask i j st) ->
  remove_subtask (PyStr.of_Z parent_task_id) (sub_id st) r.2 = (Return true, w).
Proof.
  simpl.
  destruct (list_find (fun t => task_id t = parent_task_id) (tasks w))
    as [[i' pt]|] eqn:Hf.
  2:{ by rewrite add_subtask_parent_missing. }
  rewrite (add_subtask_eq _ _ _ _ _ _ i' pt Hf). simpl. intros [= <- <- <-].
  pose proof Hf as (Hi & Hid & Hfirst)%list_find_Some.
  set (st := mkSubtask _ _ _ _ _ _ _ _).
  rewrite remove_subtask_eq. simpl. rewrite lookup_result_of_Z.
  rewrite <- (alter_as_insert
                (fun t => set_task_subtasks (task_subtasks t ++ [st]) t)
                _ i' pt) by done.
  rewrite (list_find_alter _ _ _ i' i' pt); [|done|done].
  rewrite decide_True by done.
  set (pt' := set_task_subtasks (task_subtasks pt ++ [st]) pt).
  assert (Hkept : filter (fun x => sub_id x <> next_sub_id (task_subtasks pt))
                          (task_subtasks pt')
                  = task_subtasks pt).
  { simpl. rewrite filter_app, filter_cons_False, filter_nil, app_nil_r
      by (intros H; by apply H).
    apply filter_all, Forall_forall. intros x Hx Heq.
    pose proof (max_plus_one_fresh _ _ (next_sub_id_spec (task_subtasks pt)))
      as Hfresh.
    apply Hfresh. rewrite <- Heq. by apply list_elem_of_fmap_2. }
  assert (is_nil (task_subtasks pt') = false) as ->.
  { simpl. by destruct (task_subtasks pt). }
  cbv zeta. rewrite Hkept. f_equal.
  - f_equal. apply Nat.ltb_lt. simpl. rewrite length_app. simpl. lia.
  - rewrite (alter_as_insert _ _ i' pt')
      by (rewrite (alter_as_insert _ _ i' pt) by done;
          by rewrite list_lookup_insert_eq by by eapply lookup_lt_Some).
    rewrite (alter_as_insert _ _ i' pt) by done.
    rewrite list_insert_insert_eq.
    replace (set_task_subtasks (task_subtasks pt) pt') with pt
      by (by destruct pt).
    rewrite list_insert_id by done. by destruct w.
Qed.

Lemma add_then_remove_subtask_witness :
  remove_subtask "3" 3
    (add_subtask 3 "Manual Subtask" (Some "Desc") "low" [DepInt 1]
       sample_world).2
  = (Return true, sample_world).
Proof.
  apply (add_then_remove_subtask sample_world 3 "Manual Subtask" (Some "Desc")
           "low" [DepInt 1] 2 2
           (mkSubtask 3 "Manual Subtask" (Some "Desc") None "pending"
              (Some "low") [DepInt 1] 3)).
  reflexivity.
Defined.

(** ** More on the scheduler *)

Lemma find_next_task_result_eligible w i t :
  (find_next_task w).1 = Return (Some (i, t)) ->
  tasks w !! i = Some t /\ eligible (tasks w) t = true.
Proof.
  rewrite find_next_task_eq. simpl. intros [= Hr].
  apply head_Some_elem_of in Hr.
  apply elem_of_sort_eligible, list_elem_of_filter in Hr as [He Hin].
  apply elem_of_enumerate_from in Hin as [_ Hi].
  rewrite Nat.sub_0_r in Hi. done.
Qed.

Lemma filter_none {A} (P : A -> Prop) `{!forall x, Decision (P x)} (l : list A) :
  (forall x, x ∈ l -> ~ P x) -> filter P l = [].
Proof.
  induction l as [|x l IH]; intros Hl; [done|].
  rewrite filter_cons_False by (apply Hl, elem_of_cons; by left).
  apply IH. intros y Hy. apply Hl, elem_of_cons. by right.
Qed.

(** X18: [find_next_task] returns none exactly when no task of the
    collection is eligible: on the empty collection, when all tasks are
    done or blocked, or when each of the others waits for a dependency. *)
Theorem find_next_task_none (w : World) :
  find_next_task w = (Return None, w) <->
  forall t, t ∈ tasks w -> eligible (tasks w) t = false.
Proof.
  split.
  - intros Hnone t Hin. destruct (eligible (tasks w) t) eqn:He; [|done].
    destruct (find_next_task_best w) as (i & t' & Hr & _); [by exists t|].
    congruence.
  - intros Hall. rewrite find_next_task_eq. do 2 f_equal.
    assert (filter (fun p => eligible (tasks w) p.2 = true)
                   (enumerate_from 0 (tasks w)) = []) as ->; [|done].
    apply filter_none. intros [k t] Hin He. simpl in He.
    apply elem_of_enumerate_from in Hin as [_ Hk].
    apply list_elem_of_lookup_2 in Hk. rewrite (Hall t Hk) in He. done.
Qed.

(** X19: a dependency given as a string without separator that names an
    existing task passes the check of [add_new_task] and is stored; the
    task so added is then never returned by [find_next_task], in whatever
    collection it is, because the scheduler takes the reference for one of
    unknown format. *)
Theorem add_new_task_string_dependency (w : World) (title : string)
    (description : option string) (priority : string) (s : string) :
  PyStr.contains "." s = false ->
  lookup_result (tasks w) s <> None ->
  exists i t,
    (add_new_task title description priority [DepStr s] w).1 = Return (i, t) /\
    task_dependencies t = [DepStr s] /\
    forall w' i', (find_next_task w').1 <> Return (Some (i', t)).
Proof.
  intros Hdot Hres. rewrite add_new_task_eq. cbn [fst]. eexists _, _.
  split; [done|]. cbn [task_dependencies].
  assert (filter (fun d => is_Some (lookup_result (tasks w) (dep_str d)))
                 [DepStr s] = [DepStr s]) as ->.
  { rewrite filter_cons_True; [done|]. simpl.
    by destruct (lookup_result (tasks w) s). }
  split; [done|]. intros w' i' [_ He]%find_next_task_result_eligible.
  unfold eligible in He. simpl in He. rewrite Hdot in He. simpl in He.
  discriminate.
Qed.

Lemma add_new_task_string_dependency_witness :
  exists i t,
    (add_new_task "T" None "high" [DepStr "1"] sample_world).1 = Return (i, t) /\
    task_dependencies t = [DepStr "1"] /\
    forall w' i', (find_next_task w').1 <> Return (Some (i', t)).
Proof.
  apply (add_new_task_string_dependency sample_world "T" None "high" "1").
  - reflexivity.
  - vm_compute. discriminate.
Defined.

(** ** The [remove] command *)

Example remove_command_examples :
  remove_command sample_tasks_list "2"
    = Saved (filter (fun t => task_id t <> 2) sample_tasks_list) /\
  remove_command sample_tasks_list "3.1"
    = Saved (without_subtask 3 1 sample_tasks_list) /\
  remove_command sample_tasks_list "99" = ExitFailure /\
  remove_command sample_tasks_list "3.9" = ExitFailure /\
  remove_command sample_tasks_list "3.1.2" = ExitFailure /\
  remove_command sample_tasks_list "x" = ExitFailure.
Proof. repeat split; vm_compute; reflexivity. Qed.

Lemma remove_task_loop_eq n ts :
  (remove_task_loop n ts).1 = filter (fun t => task_id t <> n) ts /\
  ((0 < (remove_task_loop n ts).2)%nat <-> exists t, t ∈ ts /\ task_id t = n).
Proof.
  induction ts as [|t ts [IH1 IH2]]; simpl.
  - split; [done|]. split; [lia|]. intros (t & Ht & _).
    by apply elem_of_nil in Ht.
  - destruct (remove_task_loop n ts) as [new cnt]. simpl in *.
    destruct (decide (task_id t = n)) as [Heq|Hne]; simpl.
    + rewrite filter_cons_False by (by intros H). split; [done|].
      split; [|lia]. intros _. exists t. split; [apply elem_of_cons; by left|done].
    + rewrite filter_cons_True by done. split; [by rewrite IH1|].
      rewrite IH2. split.
      * intros (t' & Ht' & Hid). exists t'.
        split; [apply elem_of_cons; by right|done].
      * intros (t' & [->|Ht']%elem_of_cons & Hid); [done|]. by exists t'.
Qed.

Lemma remove_subtask_loop_eq n k ts :
  (remove_subtask_loop n k ts).1 = without_subtask n k ts /\
  ((0 < (remove_subtask_loop n k ts).2)%nat <->
   exists t, t ∈ ts /\ task_id t = n /\ k ∈ sub_id <$> task_subtasks t).
Proof.
  induction ts as [|t ts [IH1 IH2]]; simpl.
  - split; [done|]. split; [lia|]. intros (t & Ht & _).
    by apply elem_of_nil in Ht.
  - destruct (remove_subtask_loop n k ts) as [new cnt]. simpl in *.
    assert (Hshort :
      (length (filter (fun st => sub_id st <> k) (task_subtasks t))
       < length (task_subtasks t))%nat <-> k ∈ sub_id <$> task_subtasks t).
    { split.
      - intros Hlt.
        destruct (decide (k ∈ sub_id <$> task_subtasks t)) as [|Hn]; [done|].
        rewrite filter_all in Hlt; [lia|].
        apply Forall_forall. intros st Hst <-. apply Hn.
        by apply list_elem_of_fmap_2.
      - intros (st & -> & Hst)%list_elem_of_fmap.
        eapply length_filter_lt; [done|]. by intros H. }
    destruct (decide (task_id t = n)) as [Heq|Hne]; simpl.
    + split; [by rewrite IH1|].
      destruct (_ <? _)%nat eqn:E.
      * apply Nat.ltb_lt, Hshort in E. split; [|lia]. intros _.
        exists t. split; [apply elem_of_cons; by left|done].
      * apply Nat.ltb_nlt in E. rewrite IH2. split.
        -- intros (t' & Ht' & H'). exists t'.
           split; [apply elem_of_cons; by right|done].
        -- intros (t' & [->|Ht']%elem_of_cons & Hid & Hk).
           ++ by apply Hshort in Hk.
           ++ by exists t'.
    + split; [by rewrite IH1|]. rewrite IH2. split.
      * intros (t' & Ht' & H'). exists t'.
        split; [apply elem_of_cons; by right|done].
      * intros (t' & [->|Ht']%elem_of_cons & Hid & Hk); [done|]. by exists t'.
Qed.

Lemma split_single c s q : PyStr.split c s = [q] -> q = s.
Proof.
  revert q. induction s as [|a s IH]; intros q; simpl; [by intros [= <-]|].
  destruct (Ascii.eqb a c).
  - intros [= _ H]. pose proof (split_length c s) as Hl. by rewrite H in Hl.
  - pose proof (split_length c s) as Hl.
    destruct (PyStr.split c s) as [|p [|]] eqn:E; try done.
    intros [= <-]. by rewrite (IH p).
Qed.

Lemma split_once_split c s q0 q1 :
  PyStr.split c s = [q0; q1] -> split_once c s = (q0, q1).
Proof.
  revert q0. induction s as [|a s IH]; intros q0; simpl; [done|].
  destruct (Ascii.eqb a c).
  - intros [= <- H]. by rewrite (split_single _ _ _ H).
  - pose proof (split_length c s) as Hl.
    destruct (PyStr.split c s) as [|p [|p' [|]]] eqn:E; try done.
    intros [= <- <-]. by rewrite (IH p).
Qed.
